(** * Query-node segment: delete buffer, watermark filter, health gate,
      primary-key existence index and binlog addressing

    A shallow embedding of [internal/querynode/segment.go].  The native
    engine (cgo), the blob store and the protobuf codec are oracles whose
    invocations are appended to logs, so that "which native call was
    submitted, with which handle and arguments" is a statement about a list.
    The reader/writer lock and the statistics mutex are not modelled: every
    operation below is one sequential step. *)

From Stdlib Require Import ZArith List Bool String Ascii Lia.
From Stdlib Require Import Strings.Byte.
From Stdlib Require Import Permutation Sorted.
From Equations Require Import Equations.
Import ListNotations.
Local Open Scope string_scope.
Local Open Scope list_scope.
Local Open Scope Z_scope.

(** ** Machine integers *)

(** [uint64] arithmetic: the value of a Go expression of that type. *)
Definition wrapU64 (z : Z) : Z := z mod 2 ^ 64.

(** [int64] arithmetic, two's complement. *)
Definition wrapS64 (z : Z) : Z := (z + 2 ^ 63) mod 2 ^ 64 - 2 ^ 63.

Abbreviation UniqueID := Z (only parsing).
Abbreviation Timestamp := Z (only parsing).
Abbreviation Channel := string (only parsing).

Definition MaxUint64 : Z := 2 ^ 64 - 1.

(** ** Outcomes *)

(** A Go call either returns or panics. *)
Inductive result (A : Type) : Type :=
| Ret (a : A)
| Panic (reason : string).
Arguments Ret {A} a.
Arguments Panic {A} reason.

(** Go [error] values; [option error] is the [error] interface with [None]
    for [nil]. *)
Inductive error : Type :=
| ErrSegmentUnhealthy (segmentID : UniqueID)
  (* fmt.Errorf("%w(segmentID=%d)", ErrSegmentUnhealthy, s.segmentID) *)
| ErrText (msg : string)
  (* errors.New / fmt.Errorf with a fixed text *)
| ErrWrap (msg : string) (cause : error)
  (* fmt.Errorf("...: %s", err) *)
| ErrCStatus (extraInfo : string) (code : Z) (msg : string)
  (* what HandleCStatus builds from a non-zero status *)
| ErrExternal (code : Z).
  (* an error produced by a collaborator (codec, blob store, helper) *)

(** ** Schema enumerations *)

Inductive DataType : Type :=
| DataType_None | DataType_Bool | DataType_Int8 | DataType_Int16
| DataType_Int32 | DataType_Int64 | DataType_Float | DataType_Double
| DataType_String | DataType_VarChar | DataType_BinaryVector
| DataType_FloatVector.

(** [commonpb.SegmentState]; [segmentType] is an alias of it. *)
Inductive SegmentState : Type :=
| SegmentStateNone | NotExist | Growing | Sealed | Flushed | Flushing
| Dropped | Importing.

Definition segmentTypeGrowing : SegmentState := Growing.
Definition segmentTypeSealed : SegmentState := Sealed.

Definition SegmentState_eqb (a b : SegmentState) : bool :=
  match a, b with
  | SegmentStateNone, SegmentStateNone | NotExist, NotExist
  | Growing, Growing | Sealed, Sealed | Flushed, Flushed
  | Flushing, Flushing | Dropped, Dropped | Importing, Importing => true
  | _, _ => false
  end.

(** ** Primary keys *)

(** The [primaryKey] interface with its two implementations; the third
    constructor stands for any other implementation, whose [Type()] is
    neither Int64 nor VarChar. *)
Inductive primaryKey : Type :=
| int64PrimaryKey (Value : Z)
| varCharPrimaryKey (Value : string)
| otherPrimaryKey.

Definition pkType (k : primaryKey) : DataType :=
  match k with
  | int64PrimaryKey _ => DataType_Int64
  | varCharPrimaryKey _ => DataType_VarChar
  | otherPrimaryKey => DataType_None
  end.

(** [schemapb.IDs]: the key-set wire value, one of two variants. *)
Inductive IDs : Type :=
| IDs_IntId (Data : list Z)
| IDs_StrId (Data : list string).

(** ** Delete records and the tombstone buffer *)

Record DeleteRecord : Type := mkDeleteRecord {
  pk : primaryKey;
  timestamp : Timestamp
}.

Record DeleteRecords : Type := mkDeleteRecords {
  records : list DeleteRecord;
  flushed : bool
}.

(** [ByTimestamp.Less] on two records. *)
Definition ByTimestamp_Less (a b : DeleteRecord) : bool :=
  timestamp a <? timestamp b.

(** What [sort.Sort] leaves behind for this [Less]: no later element is
    [Less] than an earlier one. *)
Definition ascending (l : list DeleteRecord) : Prop :=
  StronglySorted (fun a b => timestamp a <= timestamp b) l.

(** The loop of [TryAppend]: [timestamps[i]] panics when the timestamp
    slice is the shorter one; what was appended before stays appended. *)
Fixpoint appendRecords (pks : list primaryKey) (timestamps : list Timestamp)
    (recs : list DeleteRecord) : result unit * list DeleteRecord :=
  match pks with
  | [] => (Ret tt, recs)
  | k :: pks' =>
      match timestamps with
      | [] => (Panic "index out of range", recs)
      | t :: timestamps' =>
          appendRecords pks' timestamps' (recs ++ [mkDeleteRecord k t])
      end
  end.

Definition TryAppend (r : DeleteRecords) (pks : list primaryKey)
    (timestamps : list Timestamp) : result bool * DeleteRecords :=
  if flushed r then (Ret false, r)
  else
    match appendRecords pks timestamps (records r) with
    | (Ret _, recs) => (Ret true, mkDeleteRecords recs (flushed r))
    | (Panic m, recs) => (Panic m, mkDeleteRecords recs (flushed r))
    end.

(** The pairs a well-formed call appends. *)
Definition zipRecords (pks : list primaryKey) (timestamps : list Timestamp)
    : list DeleteRecord :=
  map (fun p => mkDeleteRecord (fst p) (snd p)) (combine pks timestamps).

Section DeleteBuffer.

(** [sort.Sort] is the Go library's routine, known here by its contract
    only (see [SortContract] below); it sorts [r.records] in place. *)
Variable sortSort : list DeleteRecord -> list DeleteRecord.

(** [Flush]: the handler is a closure over state of type [X]; the buffer's
    mutex is held while it runs, so the buffer is not part of [X]. *)
Definition Flush {X : Type}
    (handler : list primaryKey -> list Timestamp -> X ->
               result (option error) * X)
    (r : DeleteRecords) (x : X)
    : result (option error) * (DeleteRecords * X) :=
  let sorted := sortSort (records r) in
  let pks := map pk sorted in
  let timestamps := map timestamp sorted in
  match handler pks timestamps x with
  | (Ret (Some err), x') =>
      (Ret (Some err), (mkDeleteRecords sorted (flushed r), x'))
  | (Ret None, x') => (Ret None, (mkDeleteRecords [] true, x'))
  | (Panic m, x') => (Panic m, (mkDeleteRecords sorted (flushed r), x'))
  end.

End DeleteBuffer.

(** The documented contract of [sort.Sort]: the slice is rearranged into an
    order with no inversion for [Less]; stability is not promised. *)
Definition SortContract (sortSort : list DeleteRecord -> list DeleteRecord)
    : Prop :=
  forall l, Permutation l (sortSort l) /\ ascending (sortSort l).

(** Insertion sort, as a reference for stability: each record goes in
    front of the first record it is [Less] than, hence behind the records
    of its own timestamp that came before it. *)
Fixpoint insertStable (x : DeleteRecord) (l : list DeleteRecord)
    : list DeleteRecord :=
  match l with
  | [] => [x]
  | y :: l' =>
      if ByTimestamp_Less x y then x :: y :: l' else y :: insertStable x l'
  end.

Definition stableSort (l : list DeleteRecord) : list DeleteRecord :=
  fold_left (fun acc x => insertStable x acc) l [].

(** The gap-6 pass of the library's short-slice procedure (toolchains
    before 1.19): [for i := a + 6; i < b; i++ { if Less(i, i-6)
    { Swap(i, i-6) } }].  On at most twelve records every index is visited
    once, so the pass swaps position [k] with position [k + 6] when the
    later record is [Less]. *)
Fixpoint gapSwap (front back : list DeleteRecord)
    : list DeleteRecord * list DeleteRecord :=
  match front, back with
  | x :: front', y :: back' =>
      let '(f, b) := gapSwap front' back' in
      if ByTimestamp_Less y x then (y :: f, x :: b) else (x :: f, y :: b)
  | _, _ => (front, back)
  end.

Definition gapPass (l : list DeleteRecord) : list DeleteRecord :=
  let '(f, b) := gapSwap (firstn 6 l) (skipn 6 l) in f ++ b.

(** The gap pass followed by insertion sort: for at most twelve records,
    what [sort.Sort] does in those toolchains; for more, still a sort that
    meets the contract. *)
Definition shortSliceSort (l : list DeleteRecord) : list DeleteRecord :=
  stableSort (gapPass l).

(** ** [sort.Search] *)

Lemma midpoint_bounds (i j : nat) :
  (i < j)%nat -> (i <= (i + j) / 2 < j)%nat.
Proof.
  intro Hlt. split.
  - apply Nat.div_le_lower_bound; lia.
  - apply Nat.Div0.div_lt_upper_bound; lia.
Qed.

(** [for i < j { h := int(uint(i+j) >> 1); if !f(h) { i = h + 1 } else
    { j = h } }; return i].  Indices are slice positions, so the unsigned
    sum cannot overflow and [h] is the plain midpoint. *)
Equations? searchLoop (f : nat -> bool) (i j : nat) : nat
    by wf (j - i)%nat lt :=
  searchLoop f i j with lt_dec i j => {
    | left _ with f ((i + j) / 2)%nat => {
        | false := searchLoop f (S ((i + j) / 2)) j;
        | true := searchLoop f i ((i + j) / 2)%nat };
    | right _ := i }.
Proof.
  all: match goal with H : (?a < ?b)%nat |- _ =>
         pose proof (midpoint_bounds a b H) as Hmid;
         change (fst (Nat.divmod (a + b) 1 0 1)) with ((a + b) / 2)%nat
       end; lia.
Qed.

Definition Search (n : nat) (f : nat -> bool) : nat := searchLoop f 0 n.

(** ** Bytes and byte order *)

Inductive ByteOrder : Type := LittleEndian | BigEndian.

Definition byteOfZ (z : Z) : byte :=
  match Byte.of_N (Z.to_N (z mod 256)) with
  | Some b => b
  | None => x00
  end.

Definition ZOfByte (b : byte) : Z := Z.of_N (Byte.to_N b).

(** [order.PutUint64(buf, v)] on an 8-byte buffer. *)
Definition PutUint64 (order : ByteOrder) (v : Z) : list byte :=
  let le := map (fun i => byteOfZ (Z.shiftr v (8 * Z.of_nat i))) (seq 0 8) in
  match order with
  | LittleEndian => le
  | BigEndian => rev le
  end.

(** [[]byte(s)]. *)
Definition bytesOfString (s : string) : list byte :=
  map byte_of_ascii (list_ascii_of_string s).

(** The unsigned value of a byte string read in the given order. *)
Definition uintOfBytes (order : ByteOrder) (bs : list byte) : Z :=
  let le := match order with LittleEndian => bs | BigEndian => rev bs end in
  fold_right (fun b acc => ZOfByte b + 256 * acc) 0 le.

(** Reinterpretation of an unsigned [8 * size]-bit pattern as signed. *)
Definition signedOf (size : Z) (u : Z) : Z :=
  if u <? 2 ^ (8 * size - 1) then u else u - 2 ^ (8 * size).

(** ** Bloom filter (bits-and-blooms): an [m]-bit set addressed by [k]
    hash locations of the data; the bit set is a [Z] used as a bit mask. *)

Record BloomFilter : Type := mkBloomFilter {
  bloom_m : nat;
  bloom_k : nat;
  bloom_b : Z
}.

Section Bloom.

(** The [i]-th hash of the data, before reduction modulo [m]. *)
Variable location : list byte -> nat -> nat.

Definition bloomLocation (f : BloomFilter) (data : list byte) (i : nat) : Z :=
  Z.of_nat (location data i mod bloom_m f).

Definition bloomAdd (data : list byte) (f : BloomFilter) : BloomFilter :=
  mkBloomFilter (bloom_m f) (bloom_k f)
    (fold_left (fun b i => Z.setbit b (bloomLocation f data i))
               (seq 0 (bloom_k f)) (bloom_b f)).

Definition bloomTest (data : list byte) (f : BloomFilter) : bool :=
  forallb (fun i => Z.testbit (bloom_b f) (bloomLocation f data i))
          (seq 0 (bloom_k f)).

End Bloom.

(** [bloom.New(m, k)]: both parameters are raised to at least one. *)
Definition bloomNew (m k : nat) : BloomFilter :=
  mkBloomFilter (Nat.max 1 m) (Nat.max 1 k) 0.

(** ** Primary-key statistics of one generation *)

Record PkStatistics : Type := mkPkStatistics {
  PkFilter : BloomFilter;
  MinPK : option primaryKey;
  MaxPK : option primaryKey
}.

(** Order of two keys of the same kind; keys of different kinds do not
    compare. *)
Definition pkLT (a b : primaryKey) : bool :=
  match a, b with
  | int64PrimaryKey x, int64PrimaryKey y => x <? y
  | varCharPrimaryKey x, varCharPrimaryKey y => String.ltb x y
  | _, _ => false
  end.

(** Modelled from the spec: [PkStatistics.UpdateMinMax] is not among the
    sources; the spec has the current generation keep a "running min/max
    of primary keys" that [updateBloomFilter] updates per key. *)
Definition UpdateMinMax (k : primaryKey) (st : PkStatistics) : PkStatistics :=
  mkPkStatistics (PkFilter st)
    (match MinPK st with
     | None => Some k
     | Some lo => if pkLT k lo then Some k else Some lo
     end)
    (match MaxPK st with
     | None => Some k
     | Some hi => if pkLT hi k then Some k else Some hi
     end).

(** ** Binlogs and indexed-field descriptors *)

Record Binlog : Type := mkBinlog {
  EntriesNum : Z;
  LogPath : string;
  LogSize : Z
}.

Record FieldBinlog : Type := mkFieldBinlog {
  FieldID : UniqueID;
  Binlogs : list Binlog
}.

Record FieldIndexInfo : Type := mkFieldIndexInfo {
  IndexFieldID : UniqueID;
  EnableIndex : bool;
  BuildID : Z;
  IndexVersion : Z
}.

(** Both members are pointers and may be nil. *)
Record IndexedFieldInfo : Type := mkIndexedFieldInfo {
  fieldBinlog : option FieldBinlog;
  indexInfo : option FieldIndexInfo
}.

(** ** Retrieve results *)

(** The [Field] oneof of [schemapb.FieldData] with the scalar or vector
    array it holds; float values are kept as their bit patterns. *)
Inductive FieldPayload : Type :=
| NoPayload
| BoolData (d : list bool)
| IntData (d : list Z)
| LongData (d : list Z)
| FloatData (d : list Z)
| DoubleData (d : list Z)
| StringData (d : list string)
| BinaryVector (dim : Z) (d : list byte)
| FloatVector (dim : Z) (d : list Z).

Record FieldData : Type := mkFieldData {
  fdType : DataType;
  FieldId : UniqueID;
  Field : FieldPayload
}.

Record RetrieveResults : Type := mkRetrieveResults {
  Offset : list Z;
  FieldsData : list FieldData
}.

(** [fieldData.GetVectors().GetDim()]: the nil-safe getters give zero when
    the field holds no vector. *)
Definition GetDim (fd : FieldData) : Z :=
  match Field fd with
  | BinaryVector dim _ | FloatVector dim _ => dim
  | _ => 0
  end.

(** ** The native engine and the blob store, as logged oracles *)

(** [C.CSegmentInterface], a pointer: [None] is nil. *)
Definition CSegmentInterface := option Z.

(** Native calls that take the segment handle. *)
Inductive SegmentCall : Type :=
| C_HasRawData (fieldID : Z)
| C_DeleteSegment
| C_GetRealCount
| C_GetRowCount
| C_GetDeletedCount
| C_GetMemoryUsageInBytes
| C_Search (plan placeholderGroup : Z) (ts : Timestamp)
| C_Retrieve (plan : Z) (ts : Timestamp) (maxLimitSize : Z)
| C_PreInsert (size : Z)
| C_Insert (offset numOfRows : Z) (entityIDs : list Z)
    (timestamps : list Timestamp) (blob : list byte)
| C_Delete (offset size : Z) (blob : list byte) (timestamps : list Timestamp)
| C_LoadFieldData (info : Z)
| C_LoadDeletedRecord (timestamps : list Timestamp) (blob : list byte)
    (rowCount : Z)
| C_UpdateSealedSegmentIndex (info : Z)
| C_UpdateFieldRawDataSize (fieldID numRows fieldDataSize : Z).

(** Helpers of the package that wrap native descriptor objects; none of
    them takes the segment handle. *)
Inductive HelperCall : Type :=
| H_newLoadFieldDataInfo
| H_deleteFieldDataInfo (info : Z)
| H_appendLoadFieldInfo (info fieldID rowCount : Z)
| H_appendLoadFieldDataPath (info fieldID : Z) (path : string)
| H_newLoadIndexInfo
| H_deleteLoadIndexInfo (info : Z)
| H_appendLoadIndexInfo (info : Z) (indexInfo : FieldIndexInfo)
    (collectionID partitionID segmentID : UniqueID) (fieldType : DataType)
| H_cleanLocalData (info : Z).

Inductive CgoCall : Type :=
| OnSegment (ptr : CSegmentInterface) (c : SegmentCall)
| OnHelper (h : HelperCall).

Record CStatus : Type := mkCStatus {
  error_code : Z;
  error_msg : string
}.

(** What a call gives back: a status, and the out-parameter or return
    value the caller reads. *)
Record CReply : Type := mkCReply {
  status : CStatus;
  intValue : Z;
  boolValue : bool;
  protoValue : list byte;
  helperError : option error
}.

Inductive VcmCall : Type :=
| V_ReadAt (path : string) (off length : Z)
| V_Read (path : string).

(** Modelled from the spec: [HandleCStatus] is not among the sources; the
    spec has a non-zero status of an engine call "translated into a
    descriptive error including the originating operation name". *)
Definition HandleCStatus (st : CStatus) (extraInfo : string) : option error :=
  if error_code st =? 0 then None
  else Some (ErrCStatus extraInfo (error_code st) (error_msg st)).

(** Modelled from the spec: [typeutil.IsVectorType] is not among the
    sources; the spec's hydration handles binary and float vectors and
    skips "non-vector fields". *)
Definition IsVectorType (t : DataType) : bool :=
  match t with
  | DataType_BinaryVector | DataType_FloatVector => true
  | _ => false
  end.

(** ** The segment *)

Record Segment : Type := mkSegment {
  segmentPtr : CSegmentInterface;
  segmentID : UniqueID;
  partitionID : UniqueID;
  collectionID : UniqueID;
  version : UniqueID;
  vChannelID : Channel;
  lastMemSize : Z;
  lastRowCount : Z;
  deleteBuffer : DeleteRecords;
  flushedDeletedTimestamp : Timestamp;
  recentlyModified : bool;
  segmentType : SegmentState;
  destroyed : bool;
  lazyLoading : option bool;
  indexedFieldInfos : list (UniqueID * IndexedFieldInfo);
  currentStat : option PkStatistics;
  historyStats : list PkStatistics
}.

Definition set_segmentPtr (p : CSegmentInterface) (s : Segment) : Segment :=
  mkSegment p (segmentID s) (partitionID s) (collectionID s) (version s)
    (vChannelID s) (lastMemSize s) (lastRowCount s) (deleteBuffer s)
    (flushedDeletedTimestamp s) (recentlyModified s) (segmentType s)
    (destroyed s) (lazyLoading s) (indexedFieldInfos s) (currentStat s)
    (historyStats s).

Definition set_deleteBuffer (b : DeleteRecords) (s : Segment) : Segment :=
  mkSegment (segmentPtr s) (segmentID s) (partitionID s) (collectionID s)
    (version s) (vChannelID s) (lastMemSize s) (lastRowCount s) b
    (flushedDeletedTimestamp s) (recentlyModified s) (segmentType s)
    (destroyed s) (lazyLoading s) (indexedFieldInfos s) (currentStat s)
    (historyStats s).

Definition set_flushedDeletedTimestamp (t : Timestamp) (s : Segment)
    : Segment :=
  mkSegment (segmentPtr s) (segmentID s) (partitionID s) (collectionID s)
    (version s) (vChannelID s) (lastMemSize s) (lastRowCount s)
    (deleteBuffer s) t (recentlyModified s) (segmentType s) (destroyed s)
    (lazyLoading s) (indexedFieldInfos s) (currentStat s) (historyStats s).

Definition set_recentlyModified (m : bool) (s : Segment) : Segment :=
  mkSegment (segmentPtr s) (segmentID s) (partitionID s) (collectionID s)
    (version s) (vChannelID s) (lastMemSize s) (lastRowCount s)
    (deleteBuffer s) (flushedDeletedTimestamp s) m (segmentType s)
    (destroyed s) (lazyLoading s) (indexedFieldInfos s) (currentStat s)
    (historyStats s).

Definition set_segmentType (t : SegmentState) (s : Segment) : Segment :=
  mkSegment (segmentPtr s) (segmentID s) (partitionID s) (collectionID s)
    (version s) (vChannelID s) (lastMemSize s) (lastRowCount s)
    (deleteBuffer s) (flushedDeletedTimestamp s) (recentlyModified s) t
    (destroyed s) (lazyLoading s) (indexedFieldInfos s) (currentStat s)
    (historyStats s).

Definition set_destroyed (d : bool) (s : Segment) : Segment :=
  mkSegment (segmentPtr s) (segmentID s) (partitionID s) (collectionID s)
    (version s) (vChannelID s) (lastMemSize s) (lastRowCount s)
    (deleteBuffer s) (flushedDeletedTimestamp s) (recentlyModified s)
    (segmentType s) d (lazyLoading s) (indexedFieldInfos s) (currentStat s)
    (historyStats s).

Definition set_indexedFieldInfos (m : list (UniqueID * IndexedFieldInfo))
    (s : Segment) : Segment :=
  mkSegment (segmentPtr s) (segmentID s) (partitionID s) (collectionID s)
    (version s) (vChannelID s) (lastMemSize s) (lastRowCount s)
    (deleteBuffer s) (flushedDeletedTimestamp s) (recentlyModified s)
    (segmentType s) (destroyed s) (lazyLoading s) m (currentStat s)
    (historyStats s).

Definition set_currentStat (c : option PkStatistics) (s : Segment)
    : Segment :=
  mkSegment (segmentPtr s) (segmentID s) (partitionID s) (collectionID s)
    (version s) (vChannelID s) (lastMemSize s) (lastRowCount s)
    (deleteBuffer s) (flushedDeletedTimestamp s) (recentlyModified s)
    (segmentType s) (destroyed s) (lazyLoading s) (indexedFieldInfos s) c
    (historyStats s).

Definition set_historyStats (h : list PkStatistics) (s : Segment) : Segment :=
  mkSegment (segmentPtr s) (segmentID s) (partitionID s) (collectionID s)
    (version s) (vChannelID s) (lastMemSize s) (lastRowCount s)
    (deleteBuffer s) (flushedDeletedTimestamp s) (recentlyModified s)
    (segmentType s) (destroyed s) (lazyLoading s) (indexedFieldInfos s)
    (currentStat s) h.

(** The state an operation runs in: the segment and the two logs. *)
Record State : Type := mkState {
  seg : Segment;
  cgoLog : list CgoCall;
  vcmLog : list VcmCall
}.

Definition withSeg (f : Segment -> Segment) (st : State) : State :=
  mkState (f (seg st)) (cgoLog st) (vcmLog st).

(** An operation: state in, outcome and state out. *)
Definition M (A : Type) : Type := State -> result A * State.

(** The native calls of a log that were given a segment handle. *)
Definition handleUses (log : list CgoCall) : list (CSegmentInterface * SegmentCall) :=
  flat_map (fun c => match c with
                     | OnSegment p sc => [(p, sc)]
                     | OnHelper _ => []
                     end) log.

(** ** Slices *)

(** [dst[i] = v]; an index outside the slice panics. *)
Fixpoint setIndex {A : Type} (i : nat) (v : A) (dst : list A)
    : result (list A) :=
  match dst, i with
  | [], _ => Panic "index out of range"
  | _ :: dst', O => Ret (v :: dst')
  | x :: dst', S i' =>
      match setIndex i' v dst' with
      | Ret r => Ret (x :: r)
      | Panic m => Panic m
      end
  end.

(** [copy(dst[lo:hi], src)]; the slice expression panics outside
    [0 <= lo <= hi <= len(dst)]. *)
Definition copyInto {A : Type} (dst : list A) (lo hi : Z) (src : list A)
    : result (list A) :=
  if (0 <=? lo) && (lo <=? hi) && (hi <=? Z.of_nat (List.length dst)) then
    let n := Nat.min (Z.to_nat (hi - lo)) (List.length src) in
    Ret (firstn (Z.to_nat lo) dst ++ firstn n src
         ++ skipn (Z.to_nat lo + n) dst)
  else Panic "slice bounds out of range".

(** [binary.Read] into a slice of [n] 32-bit values. *)
Definition binaryReadUint32s (order : ByteOrder) (content : list byte)
    (n : nat) : error + list Z :=
  if (List.length content <? 4 * n)%nat then inl (ErrText "unexpected EOF")
  else inr (map (fun i => uintOfBytes order (firstn 4 (skipn (4 * i) content)))
                (seq 0 n)).

(** Modelled from the spec: [funcutil.ReadBinary] is not among the sources;
    the spec has fixed-width scalars read as "exactly sizeof(type)" bytes
    and decoded "with the configured byte order". *)
Definition ReadBinary (order : ByteOrder) (content : list byte) (size : nat)
    : error + Z :=
  if (List.length content <? size)%nat then inl (ErrText "unexpected EOF")
  else inr (uintOfBytes order (firstn size content)).

(** ** Sample values *)

(** An engine that accepts every call, a codec that tags the key set, and
    a blob store that returns nothing. *)
Definition okReply : CReply := mkCReply (mkCStatus 0 "") 0 false [] None.

Definition quietEngine : list CgoCall -> CgoCall -> CReply :=
  fun _ _ => okReply.

Definition tagMarshal (ids : IDs) : error + list byte :=
  inr (match ids with
       | IDs_IntId d => x0a :: map byteOfZ d
       | IDs_StrId d => x12 :: flat_map bytesOfString d
       end).

Definition emptyStore : list VcmCall -> VcmCall -> error + list byte :=
  fun _ _ => inr [].

Definition noBools : list byte -> error + list bool := fun _ => inr [].
Definition noStrings : list byte -> error + list string := fun _ => inr [].

(** A handler that records what it is given and returns a fixed verdict. *)
Definition recordCall (verdict : option error)
    (pks : list primaryKey) (tss : list Timestamp)
    (log : list (list primaryKey * list Timestamp))
    : result (option error) * list (list primaryKey * list Timestamp) :=
  (Ret verdict, log ++ [(pks, tss)]).

(** A segment as [newSegment] leaves it. *)
Definition freshSegment (segType : SegmentState) : Segment :=
  mkSegment (Some 4096) 7 2 1 0 "by-dev-rootcoord-dml_0" 0 0
    (mkDeleteRecords [] false) 0 false segType false (Some false) [] None [].

(** The same segment after a flush that left the watermark at [w]. *)
Definition flushedAt (w : Timestamp) : Segment :=
  set_flushedDeletedTimestamp w
    (set_deleteBuffer (mkDeleteRecords [] true) (freshSegment Growing)).

Definition stateOf (s : Segment) : State := mkState s [] [].

Definition key (v : Z) : primaryKey := int64PrimaryKey v.

(** Seven buffered records: one at timestamp 2, then six at timestamp 1. *)
Definition sevenRecords : list DeleteRecord :=
  mkDeleteRecord (key 0) 2
  :: map (fun v => mkDeleteRecord (key v) 1) [1; 2; 3; 4; 5; 6].

Definition sampleBinlogs : list Binlog :=
  [mkBinlog 10 "files/insert_log/1" 80; mkBinlog 5 "files/insert_log/2" 40].

Definition sampleFieldBinlog : FieldBinlog := mkFieldBinlog 101 sampleBinlogs.

Definition sampleIndexInfo : FieldIndexInfo := mkFieldIndexInfo 101 true 1 1.

Definition indexedSegment : Segment :=
  set_indexedFieldInfos
    [(101, mkIndexedFieldInfo (Some sampleFieldBinlog) (Some sampleIndexInfo))]
    (freshSegment Sealed).

Definition binaryField : FieldData :=
  mkFieldData DataType_BinaryVector 101 (BinaryVector 16 [x00; x00]).

(** ** Operations of the segment *)

Section Operations.

Variable sortSort : list DeleteRecord -> list DeleteRecord.
(** The engine: what a native or helper call replies, given the calls
    made before it. *)
Variable engine : list CgoCall -> CgoCall -> CReply.
(** The blob store behind [storage.ChunkManager]. *)
Variable vcm : list VcmCall -> VcmCall -> error + list byte.
(** [proto.Marshal] and [proto.Unmarshal] at the types used. *)
Variable protoMarshalIDs : IDs -> error + list byte.
Variable protoMarshalInsertRecord : Z -> error + list byte.
Variable unmarshalBoolArray : list byte -> error + list bool.
Variable unmarshalStringArray : list byte -> error + list string.
(** [HandleCProto] on a retrieve result, and [sort.Sort(&byPK{result})]. *)
Variable HandleCProto : list byte -> error + RetrieveResults.
Variable sortByPK : RetrieveResults -> RetrieveResults.
(** Hashing of the bloom filter, and the [m], [k] that
    [bloom.NewWithEstimates(storage.BloomFilterSize,
    storage.MaxBloomFalsePositive)] settles on. *)
Variable location : list byte -> nat -> nat.
Variables BloomFilterM BloomFilterK : nat.
(** [common.Endian] and [Params.QuotaConfig.MaxOutputSize]. *)
Variable Endian : ByteOrder.
Variable MaxOutputSize : Z.

Definition logCgo (c : CgoCall) (st : State) : State :=
  mkState (seg st) (cgoLog st ++ [c]) (vcmLog st).

Definition logVcm (c : VcmCall) (st : State) : State :=
  mkState (seg st) (cgoLog st) (vcmLog st ++ [c]).

(** [GetDynamicPool().Submit(...).Await()] or the query pool's: the call
    is made and its reply awaited. *)
Definition submit (c : CgoCall) (st : State) : CReply * State :=
  (engine (cgoLog st) c, logCgo c st).

Definition vcmCall (c : VcmCall) (st : State)
    : (error + list byte) * State :=
  (vcm (vcmLog st) c, logVcm c st).

(** *** Flags and field infos *)

Definition ID (s : Segment) : UniqueID := segmentID s.

Definition setRecentlyModified (modify : bool) (s : Segment) : Segment :=
  set_recentlyModified modify s.

Definition getRecentlyModified (s : Segment) : bool := recentlyModified s.

Definition setType (segType : SegmentState) (s : Segment) : Segment :=
  set_segmentType segType s.

Definition getType (s : Segment) : SegmentState := segmentType s.

Fixpoint mapGet (fieldID : UniqueID) (m : list (UniqueID * IndexedFieldInfo))
    : option IndexedFieldInfo :=
  match m with
  | [] => None
  | (k, v) :: m' => if k =? fieldID then Some v else mapGet fieldID m'
  end.

(** [InsertIfNotPresent]. *)
Definition setIndexedFieldInfo (fieldID : UniqueID) (info : IndexedFieldInfo)
    (s : Segment) : Segment :=
  match mapGet fieldID (indexedFieldInfos s) with
  | Some _ => s
  | None => set_indexedFieldInfos (indexedFieldInfos s ++ [(fieldID, info)]) s
  end.

Definition getIndexedFieldInfo (s : Segment) (fieldID : UniqueID)
    : error + IndexedFieldInfo :=
  match mapGet fieldID (indexedFieldInfos s) with
  | None => inl (ErrText "Invalid fieldID")
  | Some info => inr (mkIndexedFieldInfo (fieldBinlog info) (indexInfo info))
  end.

Definition hasLoadIndexForIndexedField (s : Segment) (fieldID : Z) : bool :=
  match mapGet fieldID (indexedFieldInfos s) with
  | None => false
  | Some fieldInfo =>
      match indexInfo fieldInfo with
      | Some ii => EnableIndex ii
      | None => false
      end
  end.

(** "healthy checks whether it's safe to use segmentPtr." *)
Definition healthy (s : Segment) : bool := negb (destroyed s).

Definition setUnhealthy (s : Segment) : Segment := set_destroyed true s.

Definition unhealthyError (s : Segment) : error :=
  ErrSegmentUnhealthy (segmentID s).

Definition hasRawData (fieldID : Z) : M bool := fun st =>
  if negb (healthy (seg st)) then (Ret false, st)
  else
    let '(reply, st1) :=
      submit (OnSegment (segmentPtr (seg st)) (C_HasRawData fieldID)) st in
    (Ret (boolValue reply), st1).

Definition deleteSegment : M unit := fun st =>
  let cPtr := segmentPtr (seg st) in
  let st1 := withSeg (fun s => set_segmentPtr None (setUnhealthy s)) st in
  match cPtr with
  | None => (Ret tt, st1)
  | Some _ =>
      let '(_, st2) := submit (OnSegment cPtr C_DeleteSegment) st1 in
      (Ret tt,
       withSeg (fun s => set_historyStats [] (set_currentStat None s)) st2)
  end.

(** *** Counters: [-1] stands in for "unhealthy" *)

Definition statQuery (c : SegmentCall) : M Z := fun st =>
  if negb (healthy (seg st)) then (Ret (-1), st)
  else
    let '(reply, st1) := submit (OnSegment (segmentPtr (seg st)) c) st in
    (Ret (intValue reply), st1).

Definition getRealCount : M Z := statQuery C_GetRealCount.
Definition getRowCount : M Z := statQuery C_GetRowCount.
Definition getDeletedCount : M Z := statQuery C_GetDeletedCount.
Definition getMemSize : M Z := statQuery C_GetMemoryUsageInBytes.

(** *** Search and retrieve *)

Record searchRequest : Type := mkSearchRequest {
  plan : option Z;              (* the plan's cSearchPlan; [None] is nil *)
  cPlaceholderGroup : Z;
  searchTimestamp : Timestamp;
  searchFieldID : UniqueID
}.

Record RetrievePlan : Type := mkRetrievePlan {
  cRetrievePlan : Z;
  planTimestamp : Timestamp
}.

Definition search (searchReq : searchRequest) : M (error + Z) := fun st =>
  let s := seg st in
  if negb (healthy s) then (Ret (inl (unhealthyError s)), st)
  else
    match plan searchReq with
    | None => (Ret (inl (ErrText "nil search plan")), st)
    | Some cSearchPlan =>
        let '(reply, st1) :=
          submit (OnSegment (segmentPtr s)
                    (C_Search cSearchPlan (cPlaceholderGroup searchReq)
                       (searchTimestamp searchReq))) st in
        match HandleCStatus (status reply) "Search failed" with
        | Some err => (Ret (inl err), st1)
        | None => (Ret (inr (intValue reply)), st1)
        end
    end.

Definition retrieve (p : RetrievePlan) : M (error + RetrieveResults) :=
  fun st =>
  let s := seg st in
  if negb (healthy s) then (Ret (inl (unhealthyError s)), st)
  else
    let '(reply, st1) :=
      submit (OnSegment (segmentPtr s)
                (C_Retrieve (cRetrievePlan p) (planTimestamp p)
                   MaxOutputSize)) st in
    match HandleCStatus (status reply) "Retrieve failed" with
    | Some err => (Ret (inl err), st1)
    | None =>
        match HandleCProto (protoValue reply) with
        | inl err => (Ret (inl err), st1)
        | inr res => (Ret (inr (sortByPK res)), st1)
        end
    end.

(** *** Hydration of indexed fields *)

Fixpoint walkBinlogs (binlogs : list Binlog) (offsetInBinlog : Z)
    : string * Z :=
  match binlogs with
  | [] => ("", offsetInBinlog)
  | binlog :: rest =>
      if offsetInBinlog <? EntriesNum binlog
      then (LogPath binlog, offsetInBinlog)
      else walkBinlogs rest (wrapS64 (offsetInBinlog - EntriesNum binlog))
  end.

(** [indexedFieldInfo.fieldBinlog.Binlogs] dereferences the pointer. *)
Definition getFieldDataPath (indexedFieldInfo : IndexedFieldInfo)
    (offset : Z) : result (string * Z) :=
  match fieldBinlog indexedFieldInfo with
  | None => Panic "nil pointer dereference"
  | Some fb => Ret (walkBinlogs (Binlogs fb) offset)
  end.

Definition withField (p : FieldPayload) (fd : FieldData) : FieldData :=
  mkFieldData (fdType fd) (FieldId fd) p.

(** The outcome of a fill function: the error it returns, the field data
    as the call leaves it, and the state. *)
Definition Fill : Type := result (option error) * (FieldData * State).

Definition fillBinVecFieldData (dataPath : string) (fieldData : FieldData)
    (i : nat) (offset : Z) (st : State) : Fill :=
  let dim := GetDim fieldData in
  let rowBytes := Z.quot dim 8 in
  let '(r, st1) :=
    vcmCall (V_ReadAt dataPath (wrapS64 (offset * rowBytes)) rowBytes) st in
  match r with
  | inl err => (Ret (Some err), (fieldData, st1))
  | inr content =>
      match Field fieldData with
      | BinaryVector d x =>
          let resultLen := Z.quot dim 8 in
          match copyInto x (wrapS64 (Z.of_nat i * resultLen))
                  (wrapS64 ((Z.of_nat i + 1) * resultLen)) content with
          | Ret x' => (Ret None, (withField (BinaryVector d x') fieldData, st1))
          | Panic m => (Panic m, (fieldData, st1))
          end
      | _ => (Panic "interface conversion", (fieldData, st1))
      end
  end.

Definition fillFloatVecFieldData (dataPath : string) (fieldData : FieldData)
    (i : nat) (offset : Z) (st : State) : Fill :=
  let dim := GetDim fieldData in
  let rowBytes := wrapS64 (dim * 4) in
  let '(r, st1) :=
    vcmCall (V_ReadAt dataPath (wrapS64 (offset * rowBytes)) rowBytes) st in
  match r with
  | inl err => (Ret (Some err), (fieldData, st1))
  | inr content =>
      match Field fieldData with
      | FloatVector d x =>
          if dim <? 0 then (Panic "makeslice: len out of range", (fieldData, st1))
          else
            match binaryReadUint32s Endian content (Z.to_nat dim) with
            | inl err => (Ret (Some err), (fieldData, st1))
            | inr floatResult =>
                let resultLen := dim in
                match copyInto x (wrapS64 (Z.of_nat i * resultLen))
                        (wrapS64 ((Z.of_nat i + 1) * resultLen))
                        floatResult with
                | Ret x' =>
                    (Ret None, (withField (FloatVector d x') fieldData, st1))
                | Panic m => (Panic m, (fieldData, st1))
                end
            end
      | _ => (Panic "interface conversion", (fieldData, st1))
      end
  end.

(** [arr.Data[offset]]. *)
Definition index {A : Type} (l : list A) (offset : Z) : option A :=
  if offset <? 0 then None else nth_error l (Z.to_nat offset).

Definition fillBoolFieldData (dataPath : string) (fieldData : FieldData)
    (i : nat) (offset : Z) (st : State) : Fill :=
  let '(r, st1) := vcmCall (V_Read dataPath) st in
  match r with
  | inl err => (Ret (Some err), (fieldData, st1))
  | inr content =>
      match unmarshalBoolArray content with
      | inl err => (Ret (Some err), (fieldData, st1))
      | inr arr =>
          match index arr offset with
          | None => (Panic "index out of range", (fieldData, st1))
          | Some v =>
              match Field fieldData with
              | BoolData d =>
                  match setIndex i v d with
                  | Ret d' =>
                      (Ret None, (withField (BoolData d') fieldData, st1))
                  | Panic m => (Panic m, (fieldData, st1))
                  end
              | _ => (Panic "index out of range", (fieldData, st1))
              end
          end
      end
  end.

Definition fillStringFieldData (dataPath : string) (fieldData : FieldData)
    (i : nat) (offset : Z) (st : State) : Fill :=
  let '(r, st1) := vcmCall (V_Read dataPath) st in
  match r with
  | inl err => (Ret (Some err), (fieldData, st1))
  | inr content =>
      match unmarshalStringArray content with
      | inl err => (Ret (Some err), (fieldData, st1))
      | inr arr =>
          match index arr offset with
          | None => (Panic "index out of range", (fieldData, st1))
          | Some v =>
              match Field fieldData with
              | StringData d =>
                  match setIndex i v d with
                  | Ret d' =>
                      (Ret None, (withField (StringData d') fieldData, st1))
                  | Panic m => (Panic m, (fieldData, st1))
                  end
              | _ => (Panic "index out of range", (fieldData, st1))
              end
          end
      end
  end.

(** The fixed-width scalar fills differ in the row width, in the array of
    the field they store into and in how the decoded pattern is stored. *)
Definition fillFixedFieldData (rowBytes : Z)
    (store : Z -> FieldPayload -> result FieldPayload)
    (dataPath : string) (fieldData : FieldData) (offset : Z) (st : State)
    : Fill :=
  let '(r, st1) :=
    vcmCall (V_ReadAt dataPath (wrapS64 (offset * rowBytes)) rowBytes) st in
  match r with
  | inl err => (Ret (Some err), (fieldData, st1))
  | inr content =>
      match ReadBinary Endian content (Z.to_nat rowBytes) with
      | inl err => (Ret (Some err), (fieldData, st1))
      | inr v =>
          match store v (Field fieldData) with
          | Ret p => (Ret None, (withField p fieldData, st1))
          | Panic m => (Panic m, (fieldData, st1))
          end
      end
  end.

Definition storeInt (i : nat) (v : Z) (p : FieldPayload)
    : result FieldPayload :=
  match p with
  | IntData d =>
      match setIndex i v d with
      | Ret d' => Ret (IntData d')
      | Panic m => Panic m
      end
  | _ => Panic "index out of range"
  end.

Definition storeLong (i : nat) (v : Z) (p : FieldPayload)
    : result FieldPayload :=
  match p with
  | LongData d =>
      match setIndex i v d with
      | Ret d' => Ret (LongData d')
      | Panic m => Panic m
      end
  | _ => Panic "index out of range"
  end.

Definition storeFloat (i : nat) (v : Z) (p : FieldPayload)
    : result FieldPayload :=
  match p with
  | FloatData d =>
      match setIndex i v d with
      | Ret d' => Ret (FloatData d')
      | Panic m => Panic m
      end
  | _ => Panic "index out of range"
  end.

Definition storeDouble (i : nat) (v : Z) (p : FieldPayload)
    : result FieldPayload :=
  match p with
  | DoubleData d =>
      match setIndex i v d with
      | Ret d' => Ret (DoubleData d')
      | Panic m => Panic m
      end
  | _ => Panic "index out of range"
  end.

Definition fillInt8FieldData (dataPath : string) (fieldData : FieldData)
    (i : nat) (offset : Z) : State -> Fill :=
  fillFixedFieldData 1 (fun v => storeInt i (signedOf 1 v))
    dataPath fieldData offset.

Definition fillInt16FieldData (dataPath : string) (fieldData : FieldData)
    (i : nat) (offset : Z) : State -> Fill :=
  fillFixedFieldData 2 (fun v => storeInt i (signedOf 2 v))
    dataPath fieldData offset.

Definition fillInt32FieldData (dataPath : string) (fieldData : FieldData)
    (i : nat) (offset : Z) : State -> Fill :=
  fillFixedFieldData 4 (fun v => storeInt i (signedOf 4 v))
    dataPath fieldData offset.

Definition fillInt64FieldData (dataPath : string) (fieldData : FieldData)
    (i : nat) (offset : Z) : State -> Fill :=
  fillFixedFieldData 8 (fun v => storeLong i (signedOf 8 v))
    dataPath fieldData offset.

Definition fillFloatFieldData (dataPath : string) (fieldData : FieldData)
    (i : nat) (offset : Z) : State -> Fill :=
  fillFixedFieldData 4 (storeFloat i) dataPath fieldData offset.

Definition fillDoubleFieldData (dataPath : string) (fieldData : FieldData)
    (i : nat) (offset : Z) : State -> Fill :=
  fillFixedFieldData 8 (storeDouble i) dataPath fieldData offset.

Definition fillFieldData (dataPath : string) (fieldData : FieldData)
    (i : nat) (offset : Z) (st : State) : Fill :=
  match fdType fieldData with
  | DataType_BinaryVector => fillBinVecFieldData dataPath fieldData i offset st
  | DataType_FloatVector => fillFloatVecFieldData dataPath fieldData i offset st
  | DataType_Bool => fillBoolFieldData dataPath fieldData i offset st
  | DataType_String | DataType_VarChar =>
      fillStringFieldData dataPath fieldData i offset st
  | DataType_Int8 => fillInt8FieldData dataPath fieldData i offset st
  | DataType_Int16 => fillInt16FieldData dataPath fieldData i offset st
  | DataType_Int32 => fillInt32FieldData dataPath fieldData i offset st
  | DataType_Int64 => fillInt64FieldData dataPath fieldData i offset st
  | DataType_Float => fillFloatFieldData dataPath fieldData i offset st
  | DataType_Double => fillDoubleFieldData dataPath fieldData i offset st
  | DataType_None => (Ret (Some (ErrText "invalid data type")), (fieldData, st))
  end.

(** [for i, offset := range result.Offset { ... }] for one field. *)
Fixpoint fillRows (indexedFieldInfo : IndexedFieldInfo) (i : nat)
    (offsets : list Z) (fieldData : FieldData) (st : State) : Fill :=
  match offsets with
  | [] => (Ret None, (fieldData, st))
  | offset :: rest =>
      match getFieldDataPath indexedFieldInfo offset with
      | Panic m => (Panic m, (fieldData, st))
      | Ret (dataPath, offsetInBinlog) =>
          match fillFieldData dataPath fieldData i offsetInBinlog st with
          | (Ret None, (fieldData', st')) =>
              fillRows indexedFieldInfo (S i) rest fieldData' st'
          | other => other
          end
      end
  end.

(** [for _, fieldData := range result.FieldsData { ... }]. *)
Fixpoint fillFields (offsets : list Z) (fields : list FieldData)
    (st : State) : result (option error) * (list FieldData * State) :=
  match fields with
  | [] => (Ret None, ([], st))
  | fieldData :: rest =>
      let continue (fd : FieldData) (st' : State) :=
        let '(r, (rest', st'')) := fillFields offsets rest st' in
        (r, (fd :: rest', st'')) in
      if negb (IsVectorType (fdType fieldData)) then continue fieldData st
      else if negb (hasLoadIndexForIndexedField (seg st) (FieldId fieldData))
      then continue fieldData st
      else
        match hasRawData (FieldId fieldData) st with
        | (Panic m, st1) => (Panic m, (fieldData :: rest, st1))
        | (Ret true, st1) => continue fieldData st1
        | (Ret false, st1) =>
            match getIndexedFieldInfo (seg st1) (FieldId fieldData) with
            | inl _ => continue fieldData st1
            | inr indexedFieldInfo =>
                match fillRows indexedFieldInfo 0 offsets fieldData st1 with
                | (Ret None, (fieldData', st2)) => continue fieldData' st2
                | (r, (fieldData', st2)) => (r, (fieldData' :: rest, st2))
                end
            end
        end
  end.

Definition fillIndexedFieldsData (collectionID : UniqueID)
    (res : RetrieveResults) (st : State)
    : result (option error) * (RetrieveResults * State) :=
  let '(r, (fields, st')) := fillFields (Offset res) (FieldsData res) st in
  (r, (mkRetrieveResults (Offset res) fields, st')).

(** *** Primary-key existence index *)

(** The canonical byte encoding of a key: eight bytes in the configured
    order for an integer key ([uint64(int64Value)]), the string's bytes
    for a string key. *)
Definition pkBytes (k : primaryKey) : option (list byte) :=
  match k with
  | int64PrimaryKey v => Some (PutUint64 Endian (wrapU64 v))
  | varCharPrimaryKey s => Some (bytesOfString s)
  | otherPrimaryKey => None
  end.

(** Modelled from the spec: [PkStatistics.PkExist] is not among the
    sources; the spec has a generation answer from its bloom filter over
    the canonical encoding, a positive being "only a candidate" and a
    negative a guarantee of absence.  A key of a kind that has no encoding
    is answered conservatively. *)
Definition PkExist (st : PkStatistics) (k : primaryKey) : bool :=
  match pkBytes k with
  | Some data => bloomTest location data (PkFilter st)
  | None => true
  end.

Definition InitCurrentStat (s : Segment) : Segment :=
  match currentStat s with
  | None =>
      set_currentStat
        (Some (mkPkStatistics (bloomNew BloomFilterM BloomFilterK) None None))
        s
  | Some _ => s
  end.

Definition addToFilter (data : list byte) (st : PkStatistics)
    : PkStatistics :=
  mkPkStatistics (bloomAdd location data (PkFilter st)) (MinPK st) (MaxPK st).

(** The loop of [updateBloomFilter] on the current generation. *)
Fixpoint addKeys (pks : list primaryKey) (stat : PkStatistics)
    : result unit * PkStatistics :=
  match pks with
  | [] => (Ret tt, stat)
  | k :: rest =>
      let stat1 := UpdateMinMax k stat in
      match k with
      | int64PrimaryKey int64Value =>
          addKeys rest
            (addToFilter (PutUint64 Endian (wrapU64 int64Value)) stat1)
      | varCharPrimaryKey stringValue =>
          addKeys rest (addToFilter (bytesOfString stringValue) stat1)
      | otherPrimaryKey => (Panic "failed to update bloomfilter", stat1)
      end
  end.

Definition updateBloomFilter (pks : list primaryKey) : M unit := fun st =>
  let s1 := InitCurrentStat (seg st) in
  match currentStat s1 with
  | None => (Panic "nil pointer dereference", withSeg (fun _ => s1) st)
  | Some stat =>
      let '(r, stat') := addKeys pks stat in
      (r, withSeg (fun _ => set_currentStat (Some stat') s1) st)
  end.

Definition isLazyLoading (s : Segment) : bool :=
  match lazyLoading s with
  | None => false
  | Some b => b
  end.

Fixpoint historyHas (k : primaryKey) (stats : list PkStatistics) : bool :=
  match stats with
  | [] => false
  | historyStat :: rest =>
      if PkExist historyStat k then true else historyHas k rest
  end.

Definition isPKExist (s : Segment) (k : primaryKey) : bool :=
  if isLazyLoading s then true
  else
    if match currentStat s with
       | Some cur => PkExist cur k
       | None => false
       end
    then true
    else historyHas k (historyStats s).

(** *** Growing-segment interface *)

Definition segmentPreInsert (numOfRecords : Z) : M (Z * option error) :=
  fun st =>
  let s := seg st in
  if negb (SegmentState_eqb (getType s) segmentTypeGrowing)
  then (Ret (0, None), st)
  else if negb (healthy s) then (Ret (-1, Some (unhealthyError s)), st)
  else
    let '(reply, st1) :=
      submit (OnSegment (segmentPtr s) (C_PreInsert numOfRecords)) st in
    match HandleCStatus (status reply) "PreInsert failed" with
    | Some err => (Ret (0, Some err), st1)
    | None => (Ret (intValue reply, None), st1)
    end.

Definition segmentInsert (offset : Z) (entityIDs : list UniqueID)
    (timestamps : list Timestamp) (record : Z) : M (option error) :=
  fun st =>
  let s := seg st in
  if negb (SegmentState_eqb (getType s) segmentTypeGrowing)
  then (Ret (Some (ErrText "unexpected segmentType when segmentInsert")), st)
  else if negb (healthy s) then (Ret (Some (unhealthyError s)), st)
  else
    match protoMarshalInsertRecord record with
    | inl err =>
        (Ret (Some (ErrWrap "failed to marshal insert record" err)), st)
    | inr insertRecordBlob =>
        match entityIDs, timestamps, insertRecordBlob with
        | [], _, _ | _, [], _ | _, _, [] => (Panic "index out of range", st)
        | _, _, _ =>
            let '(reply, st1) :=
              submit (OnSegment (segmentPtr s)
                        (C_Insert offset (Z.of_nat (List.length entityIDs))
                           entityIDs timestamps insertRecordBlob)) st in
            match HandleCStatus (status reply) "Insert failed" with
            | Some err => (Ret (Some err), st1)
            | None => (Ret None, withSeg (setRecentlyModified true) st1)
            end
        end
    end.

(** The key-set value of [deleteImpl] and [segmentLoadDeletedRecord]:
    the type of the first key selects the variant, and the type
    assertion on each key panics on a key of another kind. *)
Fixpoint int64Values (pks : list primaryKey) : result (list Z) :=
  match pks with
  | [] => Ret []
  | int64PrimaryKey v :: rest =>
      match int64Values rest with
      | Ret vs => Ret (v :: vs)
      | Panic m => Panic m
      end
  | _ :: _ => Panic "interface conversion"
  end.

Fixpoint varCharValues (pks : list primaryKey) : result (list string) :=
  match pks with
  | [] => Ret []
  | varCharPrimaryKey v :: rest =>
      match varCharValues rest with
      | Ret vs => Ret (v :: vs)
      | Panic m => Panic m
      end
  | _ :: _ => Panic "interface conversion"
  end.

Definition keySet (pks : list primaryKey) : result (error + IDs) :=
  match pks with
  | [] => Panic "index out of range"
  | first :: _ =>
      match pkType first with
      | DataType_Int64 =>
          match int64Values pks with
          | Ret vs => Ret (inr (IDs_IntId vs))
          | Panic m => Panic m
          end
      | DataType_VarChar =>
          match varCharValues pks with
          | Ret vs => Ret (inr (IDs_StrId vs))
          | Panic m => Panic m
          end
      | _ => Ret (inl (ErrText "invalid data type of primary keys"))
      end
  end.

(** The first index whose timestamp is at least the watermark plus one,
    the sum taken in [uint64]. *)
Definition firstUnapplied (watermark : Timestamp)
    (timestamps : list Timestamp) : nat :=
  Search (List.length timestamps)
    (fun i => wrapU64 (watermark + 1) <=? nth i timestamps 0).

Definition deleteImpl (pks : list primaryKey) (timestamps : list Timestamp)
    : M (option error) := fun st =>
  let s := seg st in
  if negb (healthy s) then (Ret (Some (unhealthyError s)), st)
  else
    let start := firstUnapplied (flushedDeletedTimestamp s) timestamps in
    if (start =? List.length timestamps)%nat then (Ret None, st)
    else if (List.length pks <? start)%nat
    then (Panic "slice bounds out of range", st)
    else
      let pks' := skipn start pks in
      let timestamps' := skipn start timestamps in
      match keySet pks' with
      | Panic m => (Panic m, st)
      | Ret (inl err) => (Ret (Some err), st)
      | Ret (inr ids) =>
          match protoMarshalIDs ids with
          | inl err => (Ret (Some (ErrWrap "failed to marshal ids" err)), st)
          | inr [] => (Panic "index out of range", st)
          | inr dataBlob =>
              let '(reply, st1) :=
                submit (OnSegment (segmentPtr s)
                          (C_Delete 0 (Z.of_nat (List.length pks')) dataBlob
                             timestamps')) st in
              (Ret (HandleCStatus (status reply)
                      "flush delete records failed"), st1)
          end
      end.

Definition setDeleteBuffer (b : DeleteRecords) (st : State) : State :=
  withSeg (set_deleteBuffer b) st.

Definition segmentDelete (entityIDs : list primaryKey)
    (timestamps : list Timestamp) : M (option error) := fun st =>
  if (List.length entityIDs <=? 0)%nat
  then (Ret (Some (ErrText "empty pks to delete")), st)
  else if negb (List.length entityIDs =? List.length timestamps)%nat
  then (Ret (Some (ErrText
          "length of entityIDs not equal to length of timestamps")), st)
  else
    match TryAppend (deleteBuffer (seg st)) entityIDs timestamps with
    | (Panic m, buf) => (Panic m, setDeleteBuffer buf st)
    | (Ret true, buf) => (Ret None, setDeleteBuffer buf st)
    | (Ret false, buf) =>
        deleteImpl entityIDs timestamps (setDeleteBuffer buf st)
    end.

(** The closure [FlushDelete] hands to [Flush]. *)
Definition flushHandler (pks : list primaryKey) (tss : list Timestamp)
    : M (option error) := fun st =>
  if (List.length pks =? 0)%nat then (Ret None, st)
  else
    match deleteImpl pks tss st with
    | (Ret (Some err), st1) => (Ret (Some err), st1)
    | (Ret None, st1) =>
        match nth_error tss (List.length pks - 1) with
        | Some t => (Ret None, withSeg (set_flushedDeletedTimestamp t) st1)
        | None => (Panic "index out of range", st1)
        end
    | (Panic m, st1) => (Panic m, st1)
    end.

Definition FlushDelete : M (option error) := fun st =>
  let '(r, (buf, st')) :=
    Flush sortSort flushHandler (deleteBuffer (seg st)) st in
  (r, setDeleteBuffer buf st').

(** *** Sealed-segment interface *)

(** A helper's reply carries the Go [error] it returns. *)
Definition helper (h : HelperCall) (st : State) : CReply * State :=
  submit (OnHelper h) st.

Fixpoint appendPaths (info fieldID : Z) (binlogs : list Binlog) (st : State)
    : option error * State :=
  match binlogs with
  | [] => (None, st)
  | binlog :: rest =>
      let '(reply, st1) :=
        helper (H_appendLoadFieldDataPath info fieldID (LogPath binlog)) st in
      match helperError reply with
      | Some err => (Some err, st1)
      | None => appendPaths info fieldID rest st1
      end
  end.

Definition appendField (info rowCount : Z) (field : FieldBinlog) (st : State)
    : option error * State :=
  let fieldID := FieldID field in
  let '(reply, st1) := helper (H_appendLoadFieldInfo info fieldID rowCount) st in
  match helperError reply with
  | Some err => (Some err, st1)
  | None => appendPaths info fieldID (Binlogs field) st1
  end.

Fixpoint appendFields (info rowCount : Z) (fields : list FieldBinlog)
    (st : State) : option error * State :=
  match fields with
  | [] => (None, st)
  | field :: rest =>
      match appendField info rowCount field st with
      | (Some err, st1) => (Some err, st1)
      | (None, st1) => appendFields info rowCount rest st1
      end
  end.

(** [defer deleteFieldDataInfo(loadFieldDataInfo)] at a return. *)
Definition returnFieldData (info : Z) (r : option error) (st : State)
    : result (option error) * State :=
  let '(_, st') := helper (H_deleteFieldDataInfo info) st in
  (Ret r, st').

Definition LoadMultiFieldData (rowCount : Z) (fields : list FieldBinlog)
    : M (option error) := fun st =>
  let s := seg st in
  if negb (healthy s) then (Ret (Some (unhealthyError s)), st)
  else
    let '(reply, st1) := helper H_newLoadFieldDataInfo st in
    let info := intValue reply in
    match helperError reply with
    | Some err => returnFieldData info (Some err) st1
    | None =>
        match appendFields info rowCount fields st1 with
        | (Some err, st2) => returnFieldData info (Some err) st2
        | (None, st2) =>
            let '(reply', st3) :=
              submit (OnSegment (segmentPtr s) (C_LoadFieldData info)) st2 in
            returnFieldData info
              (HandleCStatus (status reply') "LoadFieldData failed") st3
        end
    end.

Definition LoadFieldData (fieldID rowCount : Z) (field : FieldBinlog)
    : M (option error) := fun st =>
  let s := seg st in
  if negb (healthy s) then (Ret (Some (unhealthyError s)), st)
  else
    let '(reply, st1) := helper H_newLoadFieldDataInfo st in
    let info := intValue reply in
    match helperError reply with
    | Some err => returnFieldData info (Some err) st1
    | None =>
        let '(reply1, st2) :=
          helper (H_appendLoadFieldInfo info fieldID rowCount) st1 in
        match helperError reply1 with
        | Some err => returnFieldData info (Some err) st2
        | None =>
            match appendPaths info fieldID (Binlogs field) st2 with
            | (Some err, st3) => returnFieldData info (Some err) st3
            | (None, st3) =>
                let '(reply', st4) :=
                  submit (OnSegment (segmentPtr s) (C_LoadFieldData info))
                         st3 in
                returnFieldData info
                  (HandleCStatus (status reply') "LoadFieldData failed") st4
            end
        end
    end.

Definition segmentLoadDeletedRecord (primaryKeys : list primaryKey)
    (timestamps : list Timestamp) (rowCount : Z) : M (option error) :=
  fun st =>
  match TryAppend (deleteBuffer (seg st)) primaryKeys timestamps with
  | (Panic m, buf) => (Panic m, setDeleteBuffer buf st)
  | (Ret true, buf) => (Ret None, setDeleteBuffer buf st)
  | (Ret false, buf) =>
      let st0 := setDeleteBuffer buf st in
      let s := seg st0 in
      if negb (healthy s) then (Ret (Some (unhealthyError s)), st0)
      else if (List.length primaryKeys <=? 0)%nat
      then (Ret (Some (ErrText "empty pks to delete")), st0)
      else
        match keySet primaryKeys with
        | Panic m => (Panic m, st0)
        | Ret (inl err) => (Ret (Some err), st0)
        | Ret (inr ids) =>
            match protoMarshalIDs ids with
            | inl err => (Ret (Some err), st0)
            | inr idsBlob =>
                match timestamps, idsBlob with
                | [], _ | _, [] => (Panic "index out of range", st0)
                | _, _ =>
                    let '(reply, st1) :=
                      submit (OnSegment (segmentPtr s)
                                (C_LoadDeletedRecord timestamps idsBlob
                                   rowCount)) st0 in
                    (Ret (HandleCStatus (status reply)
                            "LoadDeletedRecord failed"), st1)
                end
            end
        end
  end.

(** [defer deleteLoadIndexInfo(loadIndexInfo)] at a return. *)
Definition returnIndexInfo (info : Z) (r : option error) (st : State)
    : result (option error) * State :=
  let '(_, st') := helper (H_deleteLoadIndexInfo info) st in
  (Ret r, st').

Definition segmentLoadIndexData (ii : FieldIndexInfo) (fieldType : DataType)
    : M (option error) := fun st =>
  let s := seg st in
  let '(reply, st1) := helper H_newLoadIndexInfo st in
  let info := intValue reply in
  match helperError reply with
  | Some err => returnIndexInfo info (Some err) st1
  | None =>
      let '(reply', st2) :=
        helper (H_appendLoadIndexInfo info ii (collectionID s)
                  (partitionID s) (segmentID s) fieldType) st1 in
      match helperError reply' with
      | Some err =>
          let '(_, st3) := helper (H_cleanLocalData info) st2 in
          returnIndexInfo info (Some err) st3
      | None =>
          if negb (SegmentState_eqb (getType s) segmentTypeSealed)
          then returnIndexInfo info
                 (Some (ErrText "updateSegmentIndex failed, illegal segment type"))
                 st2
          else if negb (healthy s)
          then returnIndexInfo info (Some (unhealthyError s)) st2
          else
            let '(reply'', st3) :=
              submit (OnSegment (segmentPtr s)
                        (C_UpdateSealedSegmentIndex info)) st2 in
            returnIndexInfo info
              (HandleCStatus (status reply'')
                 "UpdateSealedSegmentIndex failed") st3
      end
  end.

Definition UpdateFieldRawDataSize (numRows : Z) (fb : FieldBinlog)
    : M (option error) := fun st =>
  let fieldID := FieldID fb in
  let fieldDataSize :=
    fold_left (fun acc binlog => wrapS64 (acc + LogSize binlog))
              (Binlogs fb) 0 in
  let '(reply, st1) :=
    submit (OnSegment (segmentPtr (seg st))
              (C_UpdateFieldRawDataSize fieldID numRows fieldDataSize)) st in
  (Ret (HandleCStatus (status reply) "updateFieldRawDataSize failed"), st1).

(** *** Vocabulary of the statements *)

(** The records of a batch that lie above a watermark. *)
Definition unapplied (watermark : Timestamp) (pks : list primaryKey)
    (tss : list Timestamp) : list DeleteRecord :=
  filter (fun d => watermark <? timestamp d) (zipRecords pks tss).

(** [generationOf keys st]: the generation [st] has had [keys] added to
    it, the way the loop of [updateBloomFilter] adds a key. *)
Inductive generationOf : list primaryKey -> PkStatistics -> Prop :=
| generation_start (st : PkStatistics) : generationOf [] st
| generation_add (keys : list primaryKey) (st : PkStatistics)
    (k : primaryKey) (data : list byte) :
    generationOf keys st ->
    pkBytes k = Some data ->
    generationOf (keys ++ [k]) (addToFilter data (UpdateMinMax k st)).

(** The fields [isPKExist] reads are the same in both segments. *)
Definition sameIndex (s s' : Segment) : Prop :=
  currentStat s' = currentStat s /\
  historyStats s' = historyStats s /\
  lazyLoading s' = lazyLoading s.

(** [extends st st']: the segment and the native log are the same, and
    the blob-store log has only grown. *)
Definition extends (st st' : State) : Prop :=
  seg st' = seg st /\ cgoLog st' = cgoLog st /\
  exists extra, vcmLog st' = vcmLog st ++ extra.

Ltac break_matches :=
  repeat match goal with
         | |- context [match ?x with _ => _ end] => destruct x
         | |- context [if ?c then _ else _] => destruct c
         end.

(** The row width a vector fill reads with. *)
Definition rowBytesOf (fd : FieldData) : Z :=
  match fdType fd with
  | DataType_BinaryVector => Z.quot (GetDim fd) 8
  | DataType_FloatVector => wrapS64 (GetDim fd * 4)
  | _ => 0
  end.

Definition totalEntries (binlogs : list Binlog) : Z :=
  fold_right (fun b acc => EntriesNum b + acc) 0 binlogs.

(** The blob-store log has only grown. *)
Definition vcmGrows (st st' : State) : Prop :=
  exists extra, vcmLog st' = vcmLog st ++ extra.

(** The operations of a segment, each with its arguments. *)
Inductive Operation : Type :=
| Op_hasRawData (fieldID : Z)
| Op_getRealCount
| Op_getRowCount
| Op_getDeletedCount
| Op_getMemSize
| Op_search (searchReq : searchRequest)
| Op_retrieve (p : RetrievePlan)
| Op_fillIndexedFieldsData (collectionID : UniqueID) (res : RetrieveResults)
| Op_updateBloomFilter (pks : list primaryKey)
| Op_segmentPreInsert (numOfRecords : Z)
| Op_segmentInsert (offset : Z) (entityIDs : list UniqueID)
    (timestamps : list Timestamp) (record : Z)
| Op_segmentDelete (entityIDs : list primaryKey)
    (timestamps : list Timestamp)
| Op_deleteImpl (pks : list primaryKey) (timestamps : list Timestamp)
| Op_FlushDelete
| Op_LoadMultiFieldData (rowCount : Z) (fields : list FieldBinlog)
| Op_LoadFieldData (fieldID rowCount : Z) (field : FieldBinlog)
| Op_segmentLoadDeletedRecord (primaryKeys : list primaryKey)
    (timestamps : list Timestamp) (rowCount : Z)
| Op_segmentLoadIndexData (ii : FieldIndexInfo) (fieldType : DataType)
| Op_UpdateFieldRawDataSize (numRows : Z) (fb : FieldBinlog).

(** The state an operation leaves. *)
Definition stateAfter (op : Operation) (st : State) : State :=
  match op with
  | Op_hasRawData f => snd (hasRawData f st)
  | Op_getRealCount => snd (getRealCount st)
  | Op_getRowCount => snd (getRowCount st)
  | Op_getDeletedCount => snd (getDeletedCount st)
  | Op_getMemSize => snd (getMemSize st)
  | Op_search r => snd (search r st)
  | Op_retrieve p => snd (retrieve p st)
  | Op_fillIndexedFieldsData c r => snd (snd (fillIndexedFieldsData c r st))
  | Op_updateBloomFilter pks => snd (updateBloomFilter pks st)
  | Op_segmentPreInsert n => snd (segmentPreInsert n st)
  | Op_segmentInsert o ids tss r => snd (segmentInsert o ids tss r st)
  | Op_segmentDelete pks tss => snd (segmentDelete pks tss st)
  | Op_deleteImpl pks tss => snd (deleteImpl pks tss st)
  | Op_FlushDelete => snd (FlushDelete st)
  | Op_LoadMultiFieldData n fs => snd (LoadMultiFieldData n fs st)
  | Op_LoadFieldData f n fb => snd (LoadFieldData f n fb st)
  | Op_segmentLoadDeletedRecord pks tss n =>
      snd (segmentLoadDeletedRecord pks tss n st)
  | Op_segmentLoadIndexData ii t => snd (segmentLoadIndexData ii t st)
  | Op_UpdateFieldRawDataSize n fb => snd (UpdateFieldRawDataSize n fb st)
  end.

(** The operations that test [healthy] before they use the handle: all
    but [UpdateFieldRawDataSize]. *)
Definition gated (op : Operation) : bool :=
  match op with
  | Op_UpdateFieldRawDataSize _ _ => false
  | _ => true
  end.

(** After an operation on an unhealthy segment: still unhealthy, and the
    calls given the handle are the ones before. *)
Definition untouched (st st' : State) : Prop :=
  destroyed (seg st') = true /\
  segmentID (seg st') = segmentID (seg st) /\
  handleUses (cgoLog st') = handleUses (cgoLog st).

(** ** Properties *)

(** *** Binary search *)

(** On a predicate that, once true, stays true below [n], the loop
    narrows [i, j] to the first index at which it holds. *)
Lemma searchLoop_spec (f : nat -> bool) (n : nat) :
  (forall a b, (a <= b)%nat -> (b < n)%nat -> f a = true -> f b = true) ->
  forall i j, (i <= j)%nat -> (j <= n)%nat ->
    (forall k, (k < i)%nat -> f k = false) ->
    (forall k, (j <= k)%nat -> (k < n)%nat -> f k = true) ->
    (i <= searchLoop f i j <= j)%nat /\
    (forall k, (k < searchLoop f i j)%nat -> f k = false) /\
    (forall k, (searchLoop f i j <= k)%nat -> (k < n)%nat -> f k = true).
Proof.
  intros Hmono i j.
  funelim (searchLoop f i j); intros Hij Hjn Hlo Hhi.
  - assert (i = j) by lia. subst. repeat split; auto; lia.
  - (* f h = true: j := h *)
    match goal with Hlt : (i < j)%nat |- _ =>
      pose proof (midpoint_bounds i j Hlt) as Hmid end.
    match goal with IH : forall n : nat, _ |- _ =>
      destruct (IH n Hmono) as (Hr & Hbelow & Habove); try lia; auto end.
    + intros k Hk Hkn. apply (Hmono ((i + j) / 2)%nat k); auto.
    + repeat split; auto; lia.
  - (* f h = false: i := h + 1 *)
    match goal with Hlt : (i < j)%nat |- _ =>
      pose proof (midpoint_bounds i j Hlt) as Hmid end.
    match goal with IH : forall n : nat, _ |- _ =>
      destruct (IH n Hmono) as (Hr & Hbelow & Habove); try lia; auto end.
    + intros k Hk.
      destruct (f k) eqn:Hfk; [|reflexivity].
      match goal with Hf : f ((i + j) / 2)%nat = false |- _ =>
        rewrite <- Hf end.
      symmetry. apply (Hmono k ((i + j) / 2)%nat); auto; lia.
    + repeat split; auto; lia.
Qed.

(** With a predicate that holds nowhere below [n], the search runs off
    the end. *)
Lemma Search_all_false (f : nat -> bool) (n : nat) :
  (forall k, (k < n)%nat -> f k = false) -> Search n f = n.
Proof.
  intro Hf. unfold Search.
  destruct (searchLoop_spec f n) with (i := 0%nat) (j := n)
    as (Hr & _ & Habove); try lia.
  - intros a b Hab Hb Ha. rewrite Hf in Ha by lia. discriminate.
  - destruct (Nat.eq_dec (searchLoop f 0 n) n) as [|Hne]; [assumption|].
    assert (Hlt : (searchLoop f 0 n < n)%nat) by lia.
    specialize (Habove (searchLoop f 0 n) (Nat.le_refl _) Hlt).
    pose proof (Hf _ Hlt) as Hfalse. congruence.
Qed.

Lemma StronglySorted_nth (l : list Z) :
  StronglySorted Z.le l ->
  forall a b, (a <= b)%nat -> (b < List.length l)%nat ->
    nth a l 0 <= nth b l 0.
Proof.
  induction 1 as [|x l Hs IH Hall]; intros a b Hab Hb; simpl in *.
  - lia.
  - destruct a as [|a], b as [|b]; try lia.
    + rewrite Forall_forall in Hall. apply Hall, nth_In. lia.
    + apply IH; lia.
Qed.

(** On ascending timestamps the search index splits the slice into the
    timestamps below the threshold and those at or above it. *)
Lemma Search_splits (thr : Z) (tss : list Timestamp) :
  Sorted Z.le tss ->
  let r := Search (List.length tss) (fun i => thr <=? nth i tss 0) in
  (r <= List.length tss)%nat /\
  Forall (fun t => t < thr) (firstn r tss) /\
  Forall (fun t => thr <= t) (skipn r tss).
Proof.
  intros Hsorted r.
  apply Sorted_StronglySorted in Hsorted; [|intros x y z; apply Z.le_trans].
  destruct (searchLoop_spec (fun i => thr <=? nth i tss 0) (List.length tss))
    with (i := 0%nat) (j := List.length tss) as (Hr & Hbelow & Habove);
    try lia.
  - intros a b Hab Hb Ha. cbv beta in *. apply Z.leb_le in Ha. apply Z.leb_le.
    pose proof (StronglySorted_nth tss Hsorted a b Hab Hb). lia.
  - fold (Search (List.length tss) (fun i => thr <=? nth i tss 0)) in *.
    fold r in Hr, Hbelow, Habove.
    split; [lia|]. split; apply Forall_forall; intros t Hin.
    + destruct (In_nth _ _ 0 Hin) as (k & Hk & Hnth).
      rewrite length_firstn in Hk.
      rewrite nth_firstn in Hnth.
      destruct (k <? r)%nat eqn:Hkr;
        [apply Nat.ltb_lt in Hkr | apply Nat.ltb_ge in Hkr; lia].
      specialize (Hbelow k Hkr). apply Z.leb_gt in Hbelow. lia.
    + destruct (In_nth _ _ 0 Hin) as (k & Hk & Hnth).
      rewrite length_skipn in Hk. rewrite nth_skipn in Hnth.
      assert (Hle : (thr <=? nth (r + k) tss 0) = true)
        by (apply Habove; lia).
      apply Z.leb_le in Hle. lia.
Qed.

Lemma filter_none {A : Type} (p : A -> bool) (l : list A) :
  Forall (fun x => p x = false) l -> filter p l = [].
Proof.
  induction 1 as [|x l Hx _ IH]; simpl; [reflexivity|].
  rewrite Hx. exact IH.
Qed.

Lemma filter_all {A : Type} (p : A -> bool) (l : list A) :
  Forall (fun x => p x = true) l -> filter p l = l.
Proof.
  induction 1 as [|x l Hx _ IH]; simpl; [reflexivity|].
  rewrite Hx, IH. reflexivity.
Qed.

Lemma zipRecords_pk (pks : list primaryKey) (tss : list Timestamp) :
  List.length pks = List.length tss -> map pk (zipRecords pks tss) = pks.
Proof.
  revert tss. induction pks as [|k pks IH]; intros [|t tss] Hlen;
    simpl in *; try discriminate; [reflexivity|].
  unfold zipRecords in IH. rewrite IH by lia. reflexivity.
Qed.

Lemma zipRecords_timestamp (pks : list primaryKey) (tss : list Timestamp) :
  List.length pks = List.length tss ->
  map timestamp (zipRecords pks tss) = tss.
Proof.
  revert tss. induction pks as [|k pks IH]; intros [|t tss] Hlen;
    simpl in *; try discriminate; [reflexivity|].
  unfold zipRecords in IH. rewrite IH by lia. reflexivity.
Qed.

(** *** The direct delete path *)

Lemma wrapU64_succ (w : Z) : 0 <= w < MaxUint64 -> wrapU64 (w + 1) = w + 1.
Proof.
  unfold MaxUint64, wrapU64. intro Hw. apply Z.mod_small. lia.
Qed.

(** What the binary search keeps is what the filter keeps. *)
Lemma firstUnapplied_skipn (w : Timestamp) (pks : list primaryKey)
    (tss : list Timestamp) :
  0 <= w < MaxUint64 ->
  List.length pks = List.length tss ->
  Sorted Z.le tss ->
  (firstUnapplied w tss <= List.length tss)%nat /\
  skipn (firstUnapplied w tss) (zipRecords pks tss) = unapplied w pks tss.
Proof.
  intros Hw Hlen Hsorted. unfold firstUnapplied.
  rewrite (wrapU64_succ w Hw).
  destruct (Search_splits (w + 1) tss Hsorted) as (Hr & Hlow & Hhigh).
  set (r := Search (List.length tss) (fun i => w + 1 <=? nth i tss 0)) in *.
  split; [exact Hr|].
  unfold unapplied.
  rewrite <- (firstn_skipn r (zipRecords pks tss)) at 2.
  rewrite filter_app, filter_none, filter_all; [reflexivity| |].
  - rewrite <- (zipRecords_timestamp pks tss Hlen) in Hhigh.
    rewrite skipn_map in Hhigh. rewrite Forall_map in Hhigh.
    eapply Forall_impl; [|exact Hhigh].
    intros d Hd. simpl in Hd. apply Z.ltb_lt. lia.
  - rewrite <- (zipRecords_timestamp pks tss Hlen) in Hlow.
    rewrite firstn_map in Hlow. rewrite Forall_map in Hlow.
    eapply Forall_impl; [|exact Hlow].
    intros d Hd. simpl in Hd. apply Z.ltb_ge. lia.
Qed.

Lemma zipRecords_length (pks : list primaryKey) (tss : list Timestamp) :
  List.length pks = List.length tss ->
  List.length (zipRecords pks tss) = List.length tss.
Proof.
  intro Hlen. rewrite <- (zipRecords_timestamp pks tss Hlen) at 2.
  rewrite length_map. reflexivity.
Qed.

(** [deleteImpl] never writes to the segment: the watermark, the buffer
    and the statistics are what they were. *)
Lemma deleteImpl_seg (pks : list primaryKey) (tss : list Timestamp)
    (st : State) :
  seg (snd (deleteImpl pks tss st)) = seg st /\
  vcmLog (snd (deleteImpl pks tss st)) = vcmLog st.
Proof.
  unfold deleteImpl, submit, logCgo.
  repeat match goal with
         | |- context [if ?c then _ else _] => destruct c
         | |- context [match ?x with _ => _ end] => destruct x
         end; simpl; auto.
Qed.

(** On a healthy segment the direct path is decided by the records of
    the batch above the watermark. *)
Lemma deleteImpl_healthy (pks : list primaryKey) (tss : list Timestamp)
    (st : State) :
  healthy (seg st) = true ->
  0 <= flushedDeletedTimestamp (seg st) < MaxUint64 ->
  List.length pks = List.length tss ->
  Sorted Z.le tss ->
  let rest := unapplied (flushedDeletedTimestamp (seg st)) pks tss in
  deleteImpl pks tss st =
  match rest with
  | [] => (Ret None, st)
  | _ :: _ =>
      match keySet (map pk rest) with
      | Panic m => (Panic m, st)
      | Ret (inl err) => (Ret (Some err), st)
      | Ret (inr ids) =>
          match protoMarshalIDs ids with
          | inl err => (Ret (Some (ErrWrap "failed to marshal ids" err)), st)
          | inr [] => (Panic "index out of range", st)
          | inr dataBlob =>
              let call :=
                OnSegment (segmentPtr (seg st))
                  (C_Delete 0 (Z.of_nat (List.length rest)) dataBlob
                     (map timestamp rest)) in
              (Ret (HandleCStatus (status (engine (cgoLog st) call))
                      "flush delete records failed"), logCgo call st)
          end
      end
  end.
Proof.
  intros Hh Hw Hlen Hsorted rest.
  destruct (firstUnapplied_skipn _ pks tss Hw Hlen Hsorted) as (Hr & Hskip).
  fold rest in Hskip.
  unfold deleteImpl, submit. rewrite Hh. simpl negb. cbv iota.
  set (start := firstUnapplied (flushedDeletedTimestamp (seg st)) tss) in *.
  assert (Hpks : skipn start pks = map pk rest).
  { rewrite <- Hskip, <- skipn_map, zipRecords_pk by exact Hlen.
    reflexivity. }
  assert (Htss : skipn start tss = map timestamp rest).
  { rewrite <- Hskip, <- skipn_map, zipRecords_timestamp by exact Hlen.
    reflexivity. }
  assert (Hn : List.length rest = (List.length tss - start)%nat).
  { rewrite <- Hskip, length_skipn, zipRecords_length by exact Hlen.
    reflexivity. }
  destruct rest as [|d rest'] eqn:Hrest.
  - simpl in Hn. assert (start = List.length tss) by lia.
    rewrite (proj2 (Nat.eqb_eq _ _)) by assumption. reflexivity.
  - simpl in Hn.
    rewrite (proj2 (Nat.eqb_neq _ _)) by lia.
    rewrite (proj2 (Nat.ltb_ge _ _)) by lia.
    rewrite Hpks, Htss, length_map.
    reflexivity.
Qed.

Lemma nth_error_last {A : Type} (l : list A) (d : A) :
  l <> [] -> nth_error l (List.length l - 1) = Some (last l d).
Proof.
  induction l as [|x l IH]; intro Hne; [congruence|].
  destruct l as [|y l]; [reflexivity|].
  replace (List.length (x :: y :: l) - 1)%nat
    with (S (List.length (y :: l) - 1)) by (simpl; lia).
  cbn [nth_error]. rewrite IH by discriminate. reflexivity.
Qed.

Lemma ascending_last (l : list DeleteRecord) :
  ascending l ->
  forall d, In d l -> timestamp d <= last (map timestamp l) 0.
Proof.
  unfold ascending. induction 1 as [|x l Hs IH Hall]; intros d Hin;
    [contradiction|].
  destruct l as [|y l].
  - destruct Hin as [->|[]]. simpl. lia.
  - change (last (map timestamp (x :: y :: l)) 0)
      with (last (map timestamp (y :: l)) 0).
    destruct Hin as [->|Hin]; [|auto].
    rewrite Forall_forall in Hall.
    specialize (Hall y (or_introl eq_refl)).
    specialize (IH y (or_introl eq_refl)). lia.
Qed.

(** A flush that succeeds on a non-empty buffer moves the watermark to
    the last timestamp handed to the handler, which no buffered
    timestamp exceeds, empties the buffer and marks it flushed. *)
Lemma FlushDelete_success (st st' : State) :
  SortContract sortSort ->
  FlushDelete st = (Ret None, st') ->
  records (deleteBuffer (seg st)) <> [] ->
  flushedDeletedTimestamp (seg st') =
    last (map timestamp (sortSort (records (deleteBuffer (seg st))))) 0 /\
  Forall (fun d => timestamp d <= flushedDeletedTimestamp (seg st'))
         (records (deleteBuffer (seg st))) /\
  deleteBuffer (seg st') = mkDeleteRecords [] true.
Proof.
  intros Hsort Hrun Hne.
  destruct (Hsort (records (deleteBuffer (seg st)))) as (Hperm & Hasc).
  unfold FlushDelete, Flush, flushHandler in Hrun.
  set (sorted := sortSort (records (deleteBuffer (seg st)))) in *.
  assert (Hsne : sorted <> []).
  { intro Hnil. rewrite Hnil in Hperm.
    apply Permutation_sym, Permutation_nil in Hperm. contradiction. }
  rewrite length_map in Hrun.
  destruct (List.length sorted =? 0)%nat eqn:Hlen.
  { apply Nat.eqb_eq, length_zero_iff_nil in Hlen. contradiction. }
  pose proof (deleteImpl_seg (map pk sorted) (map timestamp sorted) st)
    as (Hseg & _).
  destruct (deleteImpl (map pk sorted) (map timestamp sorted) st)
    as [[[err|]|m] st1]; try discriminate.
  simpl in Hseg.
  assert (Hlast : nth_error (map timestamp sorted) (List.length sorted - 1)
                  = Some (last (map timestamp sorted) 0)).
  { rewrite <- (length_map timestamp sorted). apply nth_error_last.
    destruct sorted; [congruence|discriminate]. }
  rewrite Hlast in Hrun. inversion Hrun; subst; clear Hrun. simpl.
  split; [reflexivity|]. split; [|reflexivity].
  apply Forall_forall. intros d Hd.
  apply ascending_last; [exact Hasc|].
  eapply Permutation_in; eauto.
Qed.

(** C1 (as amended).  On a healthy segment, for keys and timestamps of
    equal length with ascending timestamps: [deleteImpl] drops the
    records at or before the watermark; when none remains it returns nil
    and calls nothing, otherwise it submits exactly one engine delete
    call, for the remaining records; in either case it leaves the
    watermark as it was.  The watermark moves only in [FlushDelete],
    which on success sets it to the last timestamp of the sorted
    buffer. *)
Theorem deleteImpl_suffix_and_watermark (st : State)
    (pks : list primaryKey) (tss : list Timestamp) :
  SortContract sortSort ->
  healthy (seg st) = true ->
  0 <= flushedDeletedTimestamp (seg st) < MaxUint64 ->
  List.length pks = List.length tss ->
  Sorted Z.le tss ->
  let w := flushedDeletedTimestamp (seg st) in
  let rest := unapplied w pks tss in
  (rest = [] -> deleteImpl pks tss st = (Ret None, st)) /\
  (forall ids blob,
      rest <> [] ->
      keySet (map pk rest) = Ret (inr ids) ->
      protoMarshalIDs ids = inr blob -> blob <> [] ->
      let call :=
        OnSegment (segmentPtr (seg st))
          (C_Delete 0 (Z.of_nat (List.length rest)) blob
             (map timestamp rest)) in
      deleteImpl pks tss st =
      (Ret (HandleCStatus (status (engine (cgoLog st) call))
              "flush delete records failed"),
       mkState (seg st) (cgoLog st ++ [call]) (vcmLog st))) /\
  flushedDeletedTimestamp (seg (snd (deleteImpl pks tss st))) = w /\
  (forall st0 st',
      FlushDelete st0 = (Ret None, st') ->
      records (deleteBuffer (seg st0)) <> [] ->
      flushedDeletedTimestamp (seg st') =
        last (map timestamp (sortSort (records (deleteBuffer (seg st0))))) 0
      /\ Forall (fun d => timestamp d <= flushedDeletedTimestamp (seg st'))
                (records (deleteBuffer (seg st0)))).
Proof.
  intros Hsort Hh Hw Hlen Hsorted w rest.
  pose proof (deleteImpl_healthy pks tss st Hh Hw Hlen Hsorted) as Hrun.
  cbv zeta in Hrun. fold w in Hrun. fold rest in Hrun.
  repeat split.
  - intro Hnil. rewrite Hrun, Hnil. reflexivity.
  - intros ids blob Hne Hkeys Hblob Hbne call.
    rewrite Hrun. destruct rest as [|d rest'] eqn:Hrest; [congruence|].
    rewrite Hkeys, Hblob.
    destruct blob as [|b blob]; [congruence|]. reflexivity.
  - rewrite (proj1 (deleteImpl_seg pks tss st)). reflexivity.
  - apply (FlushDelete_success st0 st' Hsort); assumption.
  - apply (FlushDelete_success st0 st' Hsort); assumption.
Qed.

(** C5 (as amended).  On a healthy segment, a batch none of whose
    timestamps exceeds the watermark is a no-op for [deleteImpl]: nil is
    returned, no call is made and the state is the one before. *)
Theorem deleteImpl_replay_is_noop (st : State) (pks : list primaryKey)
    (tss : list Timestamp) :
  healthy (seg st) = true ->
  0 <= flushedDeletedTimestamp (seg st) < MaxUint64 ->
  Forall (fun t => t <= flushedDeletedTimestamp (seg st)) tss ->
  deleteImpl pks tss st = (Ret None, st).
Proof.
  intros Hh Hw Hall. unfold deleteImpl. rewrite Hh. simpl negb. cbv iota.
  unfold firstUnapplied. rewrite (wrapU64_succ _ Hw).
  rewrite Search_all_false.
  - rewrite Nat.eqb_refl. reflexivity.
  - intros k Hk. apply Z.leb_gt.
    rewrite Forall_forall in Hall.
    specialize (Hall (nth k tss 0) (nth_In tss 0 Hk)). lia.
Qed.

(** *** The tombstone buffer *)

Lemma appendRecords_zip (pks : list primaryKey) (tss : list Timestamp) :
  List.length pks = List.length tss ->
  forall recs,
    appendRecords pks tss recs = (Ret tt, recs ++ zipRecords pks tss).
Proof.
  revert tss. induction pks as [|k pks IH]; intros [|t tss] Hlen recs;
    simpl in *; try discriminate.
  - rewrite app_nil_r. reflexivity.
  - rewrite IH by lia. rewrite <- app_assoc. reflexivity.
Qed.

Lemma TryAppend_unflushed (r : DeleteRecords) (pks : list primaryKey)
    (tss : list Timestamp) :
  flushed r = false ->
  List.length pks = List.length tss ->
  TryAppend r pks tss =
  (Ret true, mkDeleteRecords (records r ++ zipRecords pks tss) false).
Proof.
  intros Hf Hlen. unfold TryAppend.
  rewrite Hf, (appendRecords_zip pks tss Hlen). reflexivity.
Qed.

Lemma TryAppend_flushed (r : DeleteRecords) (pks : list primaryKey)
    (tss : list Timestamp) :
  flushed r = true -> TryAppend r pks tss = (Ret false, r).
Proof.
  intro Hf. unfold TryAppend. rewrite Hf. reflexivity.
Qed.

(** C3 (as amended).  [Flush] rearranges the buffered records into
    ascending timestamp order (a permutation of the buffer with no
    inversion; the order among equal timestamps is whatever [sort.Sort]
    leaves) and what it returns and does to the handler's state is one
    application of the handler to the keys and the timestamps of that
    sequence: a handler that records its calls has recorded exactly one
    more. *)
Theorem Flush_sorts_then_applies_once {X : Type}
    (handler : list primaryKey -> list Timestamp -> X ->
               result (option error) * X)
    (r : DeleteRecords) (x : X) :
  SortContract sortSort ->
  exists sorted,
    Permutation (records r) sorted /\
    ascending sorted /\
    fst (Flush sortSort handler r x) =
      fst (handler (map pk sorted) (map timestamp sorted) x) /\
    snd (snd (Flush sortSort handler r x)) =
      snd (handler (map pk sorted) (map timestamp sorted) x) /\
    forall verdict log,
      snd (snd (Flush sortSort (recordCall verdict) r log)) =
      log ++ [(map pk sorted, map timestamp sorted)].
Proof.
  intro Hsort. exists (sortSort (records r)).
  destruct (Hsort (records r)) as (Hperm & Hasc).
  split; [exact Hperm|]. split; [exact Hasc|].
  split; [|split].
  - unfold Flush. destruct (handler _ _ x) as [[[err|]|m] x']; reflexivity.
  - unfold Flush. destruct (handler _ _ x) as [[[err|]|m] x']; reflexivity.
  - intros verdict log. unfold Flush, recordCall.
    destruct verdict; reflexivity.
Qed.

(** C4.  While the buffer is unflushed: a handler error is what [Flush]
    returns, and the buffer is then still unflushed, holds the same
    records (in sorted order) and goes on accepting appends; on handler
    success the buffer is emptied and marked flushed; the flag is set in
    no other case, and once it is set [TryAppend] returns false whatever
    it is given and no later [Flush] clears it. *)
Theorem Flush_failure_keeps_buffer {X : Type}
    (handler : list primaryKey -> list Timestamp -> X ->
               result (option error) * X)
    (r : DeleteRecords) (x : X) :
  SortContract sortSort ->
  flushed r = false ->
  let sorted := sortSort (records r) in
  (forall err x',
      handler (map pk sorted) (map timestamp sorted) x = (Ret (Some err), x') ->
      exists r',
        Flush sortSort handler r x = (Ret (Some err), (r', x')) /\
        flushed r' = false /\
        Permutation (records r) (records r') /\
        forall pks tss,
          List.length pks = List.length tss ->
          TryAppend r' pks tss =
          (Ret true,
           mkDeleteRecords (records r' ++ zipRecords pks tss) false)) /\
  (forall x',
      handler (map pk sorted) (map timestamp sorted) x = (Ret None, x') ->
      Flush sortSort handler r x = (Ret None, (mkDeleteRecords [] true, x'))) /\
  (forall res r' x',
      Flush sortSort handler r x = (res, (r', x')) ->
      flushed r' = true -> res = Ret None /\ records r' = []) /\
  (forall done : DeleteRecords,
      flushed done = true ->
      (forall pks tss, TryAppend done pks tss = (Ret false, done)) /\
      (forall (h : list primaryKey -> list Timestamp -> X ->
                   result (option error) * X) y,
          flushed (fst (snd (Flush sortSort h done y))) = true)).
Proof.
  intros Hsort Hf sorted.
  destruct (Hsort (records r)) as (Hperm & _). fold sorted in Hperm.
  split; [|split; [|split]].
  - intros err x' Hh. exists (mkDeleteRecords sorted (flushed r)).
    unfold Flush. fold sorted. rewrite Hh.
    split; [reflexivity|]. split; [exact Hf|]. split; [exact Hperm|].
    intros pks tss Hlen. apply TryAppend_unflushed; [exact Hf|exact Hlen].
  - intros x' Hh. unfold Flush. fold sorted. rewrite Hh. reflexivity.
  - intros res r' x' Hrun Hdone.
    unfold Flush in Hrun. fold sorted in Hrun.
    destruct (handler _ _ x) as [[[err|]|m] x1];
      inversion Hrun; subst; simpl in *; split; congruence.
  - intros done Hdone. split.
    + intros pks tss. apply TryAppend_flushed. exact Hdone.
    + intros h y. unfold Flush.
      destruct (h _ _ y) as [[[err|]|m] y']; simpl; auto.
Qed.

(** *** The existence index *)

Lemma testbit_setbits (loc : nat -> Z) (idxs : list nat) (b p : Z) :
  (forall i, 0 <= loc i) ->
  Z.testbit (fold_left (fun b i => Z.setbit b (loc i)) idxs b) p =
  existsb (fun i => loc i =? p) idxs || Z.testbit b p.
Proof.
  intro Hloc. revert b. induction idxs as [|i idxs IH]; intro b; simpl.
  - reflexivity.
  - rewrite IH, Z.setbit_eqb by apply Hloc.
    rewrite orb_assoc, (orb_comm (existsb _ idxs)). reflexivity.
Qed.

Lemma bloomLocation_nonneg (f : BloomFilter) (data : list byte) (i : nat) :
  0 <= bloomLocation location f data i.
Proof. unfold bloomLocation. lia. Qed.

(** What has been added tests positive. *)
Lemma bloomTest_bloomAdd (data : list byte) (f : BloomFilter) :
  bloomTest location data (bloomAdd location data f) = true.
Proof.
  unfold bloomTest, bloomAdd. simpl. apply forallb_forall. intros i Hi.
  change (bloomLocation location
            (mkBloomFilter (bloom_m f) (bloom_k f) _) data i)
    with (bloomLocation location f data i).
  rewrite (testbit_setbits (bloomLocation location f data))
    by apply bloomLocation_nonneg.
  apply orb_true_iff. left. apply existsb_exists. exists i.
  split; [exact Hi|apply Z.eqb_refl].
Qed.

(** Adding never turns a positive into a negative. *)
Lemma bloomTest_bloomAdd_mono (data data' : list byte) (f : BloomFilter) :
  bloomTest location data f = true ->
  bloomTest location data (bloomAdd location data' f) = true.
Proof.
  unfold bloomTest, bloomAdd. simpl. intro Ht.
  rewrite forallb_forall in Ht. apply forallb_forall. intros i Hi.
  change (bloomLocation location
            (mkBloomFilter (bloom_m f) (bloom_k f) _) data i)
    with (bloomLocation location f data i).
  rewrite (testbit_setbits (bloomLocation location f data'))
    by apply bloomLocation_nonneg.
  rewrite (Ht i Hi). apply orb_true_r.
Qed.

Lemma PkExist_generation (keys : list primaryKey) (st : PkStatistics) :
  generationOf keys st -> forall k, In k keys -> PkExist st k = true.
Proof.
  induction 1 as [st|keys st k0 data Hgen IH Hbytes]; intros k Hin.
  - contradiction.
  - unfold PkExist. destruct (pkBytes k) as [d|] eqn:Hk; [|reflexivity].
    simpl. apply in_app_or in Hin. destruct Hin as [Hin|[->|[]]].
    + apply bloomTest_bloomAdd_mono.
      specialize (IH k Hin). unfold PkExist in IH. rewrite Hk in IH.
      exact IH.
    + assert (d = data) by congruence. subst d. apply bloomTest_bloomAdd.
Qed.

Lemma addKeys_generation (pks : list primaryKey) :
  forall keys stat stat',
    generationOf keys stat ->
    addKeys pks stat = (Ret tt, stat') ->
    generationOf (keys ++ pks) stat'.
Proof.
  induction pks as [|k pks IH]; intros keys stat stat' Hgen Hrun;
    simpl in Hrun.
  - inversion Hrun; subst. rewrite app_nil_r. exact Hgen.
  - replace (keys ++ k :: pks) with ((keys ++ [k]) ++ pks)
      by (rewrite <- app_assoc; reflexivity).
    destruct k as [v|s|]; [| |discriminate].
    + eapply IH; [|exact Hrun].
      apply (generation_add keys stat (int64PrimaryKey v)); auto.
    + eapply IH; [|exact Hrun].
      apply (generation_add keys stat (varCharPrimaryKey s)); auto.
Qed.

Lemma historyHas_existsb (k : primaryKey) (stats : list PkStatistics) :
  historyHas k stats = existsb (fun h => PkExist h k) stats.
Proof.
  induction stats as [|h stats IH]; simpl; [reflexivity|].
  rewrite IH. destruct (PkExist h k); reflexivity.
Qed.

Lemma isPKExist_unfold (s : Segment) (k : primaryKey) :
  isPKExist s k =
  isLazyLoading s
  || match currentStat s with
     | Some cur => PkExist cur k
     | None => false
     end
  || existsb (fun h => PkExist h k) (historyStats s).
Proof.
  unfold isPKExist. rewrite historyHas_existsb.
  destruct (isLazyLoading s); [reflexivity|].
  destruct (currentStat s) as [cur|]; [|reflexivity].
  destruct (PkExist cur k); reflexivity.
Qed.

(** A key that [updateBloomFilter] has taken in is in the current
    generation. *)
Lemma updateBloomFilter_generation (pks : list primaryKey) (st st' : State) :
  updateBloomFilter pks st = (Ret tt, st') ->
  exists cur, currentStat (seg st') = Some cur /\ generationOf pks cur /\
              historyStats (seg st') = historyStats (seg st) /\
              lazyLoading (seg st') = lazyLoading (seg st).
Proof.
  unfold updateBloomFilter, InitCurrentStat. intro Hrun.
  destruct (currentStat (seg st)) as [cur|] eqn:Hcur; simpl in Hrun.
  - rewrite Hcur in Hrun.
    destruct (addKeys pks cur) as [r stat'] eqn:Hadd.
    inversion Hrun; subst; clear Hrun. simpl.
    exists stat'. repeat split.
    apply (addKeys_generation pks [] cur stat'
             (generation_start cur) Hadd).
  - destruct (addKeys pks _) as [r stat'] eqn:Hadd.
    inversion Hrun; subst; clear Hrun. simpl.
    exists stat'. repeat split.
    apply (addKeys_generation pks [] _ stat' (generation_start _) Hadd).
Qed.

(** C6.  [isPKExist] answers true while the segment is lazily loading,
    and otherwise exactly when the current generation or some historical
    generation reports the key; so a key that was added to the current
    generation, or to any historical one, is never answered false. *)
Theorem isPKExist_no_false_negative (s : Segment) (k : primaryKey) :
  (isPKExist s k =
   isLazyLoading s
   || match currentStat s with
      | Some cur => PkExist cur k
      | None => false
      end
   || existsb (fun h => PkExist h k) (historyStats s)) /\
  (isLazyLoading s = true -> isPKExist s k = true) /\
  (forall keys cur,
      currentStat s = Some cur -> generationOf keys cur -> In k keys ->
      isPKExist s k = true) /\
  (forall keys h,
      In h (historyStats s) -> generationOf keys h -> In k keys ->
      isPKExist s k = true) /\
  (forall pks st st',
      updateBloomFilter pks st = (Ret tt, st') -> In k pks ->
      isPKExist (seg st') k = true).
Proof.
  split; [apply isPKExist_unfold|]. split; [|split; [|split]].
  - intro Hlazy. rewrite isPKExist_unfold, Hlazy. reflexivity.
  - intros keys cur Hcur Hgen Hin. rewrite isPKExist_unfold, Hcur.
    rewrite (PkExist_generation keys cur Hgen k Hin).
    rewrite orb_true_r. reflexivity.
  - intros keys h Hh Hgen Hin. rewrite isPKExist_unfold.
    apply orb_true_iff. right. apply existsb_exists. exists h.
    split; [exact Hh|]. apply (PkExist_generation keys h Hgen k Hin).
  - intros pks st st' Hrun Hin.
    destruct (updateBloomFilter_generation pks st st' Hrun)
      as (cur & Hcur & Hgen & _).
    rewrite isPKExist_unfold, Hcur.
    rewrite (PkExist_generation pks cur Hgen k Hin).
    rewrite orb_true_r. reflexivity.
Qed.

(** *** Entry points *)

(** C8.  [segmentPreInsert] on a sealed segment returns offset 0 and nil
    and does nothing; on a growing segment it returns the unhealthy
    error when the segment is unhealthy, the error built from the status
    when the native call reports a non-zero status, and otherwise the
    offset the native call reserved. *)
Theorem segmentPreInsert_cases (st : State) (numOfRecords : Z) :
  let s := seg st in
  let call := OnSegment (segmentPtr s) (C_PreInsert numOfRecords) in
  let reply := engine (cgoLog st) call in
  (getType s = segmentTypeSealed ->
   segmentPreInsert numOfRecords st = (Ret (0, None), st)) /\
  (getType s = segmentTypeGrowing -> healthy s = false ->
   segmentPreInsert numOfRecords st =
   (Ret (-1, Some (ErrSegmentUnhealthy (segmentID s))), st)) /\
  (getType s = segmentTypeGrowing -> healthy s = true ->
   error_code (status reply) <> 0 ->
   segmentPreInsert numOfRecords st =
   (Ret (0, Some (ErrCStatus "PreInsert failed" (error_code (status reply))
                    (error_msg (status reply)))),
    mkState s (cgoLog st ++ [call]) (vcmLog st))) /\
  (getType s = segmentTypeGrowing -> healthy s = true ->
   error_code (status reply) = 0 ->
   segmentPreInsert numOfRecords st =
   (Ret (intValue reply, None),
    mkState s (cgoLog st ++ [call]) (vcmLog st))).
Proof.
  intros s call reply. unfold segmentPreInsert, submit, logCgo.
  fold s. fold call. fold reply. unfold HandleCStatus.
  split; [|split; [|split]].
  - intro Ht. rewrite Ht. reflexivity.
  - intros Ht Hh. rewrite Ht, Hh. reflexivity.
  - intros Ht Hh Hcode. rewrite Ht, Hh. simpl.
    apply Z.eqb_neq in Hcode. rewrite Hcode. reflexivity.
  - intros Ht Hh Hcode. rewrite Ht, Hh. simpl.
    rewrite Hcode. reflexivity.
Qed.

Lemma setDeleteBuffer_same (st : State) :
  setDeleteBuffer (deleteBuffer (seg st)) st = st.
Proof. destruct st as [s cl vl]. destruct s. reflexivity. Qed.

(** C7 (as amended).  [segmentDelete] rejects an empty key sequence, and
    key and timestamp sequences of unequal length, with an error and an
    untouched state: nothing is buffered and nothing is called.
    [segmentLoadDeletedRecord] rejects an empty key sequence once the
    buffer has been flushed, on a healthy segment, again with an
    untouched state. *)
Theorem delete_entry_points_reject (st : State)
    (pks : list primaryKey) (tss : list Timestamp) (rowCount : Z) :
  (pks = [] ->
   segmentDelete pks tss st =
   (Ret (Some (ErrText "empty pks to delete")), st)) /\
  (pks <> [] -> List.length pks <> List.length tss ->
   segmentDelete pks tss st =
   (Ret (Some (ErrText
      "length of entityIDs not equal to length of timestamps")), st)) /\
  (pks = [] -> flushed (deleteBuffer (seg st)) = true ->
   healthy (seg st) = true ->
   segmentLoadDeletedRecord pks tss rowCount st =
   (Ret (Some (ErrText "empty pks to delete")), st)).
Proof.
  split; [|split].
  - intros ->. reflexivity.
  - intros Hne Hlen. unfold segmentDelete.
    destruct pks as [|k pks]; [congruence|]. simpl Nat.leb. cbv iota.
    apply Nat.eqb_neq in Hlen. rewrite Hlen. reflexivity.
  - intros -> Hf Hh. unfold segmentLoadDeletedRecord, TryAppend.
    rewrite Hf, setDeleteBuffer_same, Hh. reflexivity.
Qed.

(** *** Deletes and the existence index *)

Lemma sameIndex_refl (s : Segment) : sameIndex s s.
Proof. repeat split. Qed.

Lemma sameIndex_isPKExist (s s' : Segment) (k : primaryKey) :
  sameIndex s s' -> isPKExist s' k = isPKExist s k.
Proof.
  intros (Hc & Hh & Hl). unfold isPKExist, isLazyLoading.
  rewrite Hc, Hh, Hl. reflexivity.
Qed.

Lemma segmentDelete_sameIndex (pks : list primaryKey)
    (tss : list Timestamp) (st : State) :
  sameIndex (seg st) (seg (snd (segmentDelete pks tss st))).
Proof.
  unfold segmentDelete.
  destruct (List.length pks <=? 0)%nat; [apply sameIndex_refl|].
  destruct (negb _); [apply sameIndex_refl|].
  destruct (TryAppend _ pks tss) as [[[|]|m] buf].
  - simpl. repeat split.
  - rewrite (proj1 (deleteImpl_seg pks tss _)). simpl. repeat split.
  - simpl. repeat split.
Qed.

Lemma FlushDelete_sameIndex (st : State) :
  sameIndex (seg st) (seg (snd (FlushDelete st))).
Proof.
  unfold FlushDelete, Flush, flushHandler.
  destruct (List.length _ =? 0)%nat; [simpl; repeat split|].
  match goal with |- context [deleteImpl ?p ?t st] =>
    pose proof (proj1 (deleteImpl_seg p t st)) as Hseg;
    destruct (deleteImpl p t st) as [[[err|]|m] st1]
  end; simpl in Hseg; simpl; try (rewrite Hseg; repeat split).
  destruct (nth_error _ _); simpl; rewrite Hseg; repeat split.
Qed.

(** C9.  [segmentDelete], [deleteImpl] and [FlushDelete] leave the
    current and the historical generations (and the lazy-loading flag)
    as they were, so [isPKExist] answers after them what it answered
    before; in particular a key taken in by [updateBloomFilter] is
    still answered true after it has been deleted. *)
Theorem delete_leaves_existence_index (st : State)
    (pks : list primaryKey) (tss : list Timestamp) :
  let afterDelete := seg (snd (segmentDelete pks tss st)) in
  let afterImpl := seg (snd (deleteImpl pks tss st)) in
  let afterFlush := seg (snd (FlushDelete st)) in
  (sameIndex (seg st) afterDelete /\
   sameIndex (seg st) afterImpl /\
   sameIndex (seg st) afterFlush) /\
  (forall k,
      isPKExist afterDelete k = isPKExist (seg st) k /\
      isPKExist afterImpl k = isPKExist (seg st) k /\
      isPKExist afterFlush k = isPKExist (seg st) k) /\
  (forall st0 keys k,
      updateBloomFilter keys st0 = (Ret tt, st) -> In k keys ->
      isPKExist afterDelete k = true /\
      isPKExist afterImpl k = true /\
      isPKExist afterFlush k = true).
Proof.
  intros afterDelete afterImpl afterFlush.
  assert (Hd : sameIndex (seg st) afterDelete)
    by apply segmentDelete_sameIndex.
  assert (Hi : sameIndex (seg st) afterImpl).
  { unfold afterImpl. rewrite (proj1 (deleteImpl_seg pks tss st)).
    apply sameIndex_refl. }
  assert (Hf : sameIndex (seg st) afterFlush)
    by apply FlushDelete_sameIndex.
  split; [auto|]. split.
  - intro k. repeat split; apply sameIndex_isPKExist; assumption.
  - intros st0 keys k Hrun Hin.
    assert (Hk : isPKExist (seg st) k = true).
    { destruct (updateBloomFilter_generation keys st0 st Hrun)
        as (cur & Hcur & Hgen & _).
      rewrite isPKExist_unfold, Hcur.
      rewrite (PkExist_generation keys cur Hgen k Hin).
      rewrite orb_true_r. reflexivity. }
    repeat split; rewrite <- Hk; apply sameIndex_isPKExist; assumption.
Qed.

(** *** Hydration: what a fill does to the state *)

Lemma extends_refl (st : State) : extends st st.
Proof. repeat split. exists []. rewrite app_nil_r. reflexivity. Qed.

Lemma extends_trans (a b c : State) :
  extends a b -> extends b c -> extends a c.
Proof.
  intros (Hs & Hc & e & He) (Hs' & Hc' & e' & He').
  repeat split; try congruence.
  exists (e ++ e'). rewrite He', He, app_assoc. reflexivity.
Qed.

Lemma extends_logVcm (c : VcmCall) (st : State) : extends st (logVcm c st).
Proof. repeat split. exists [c]. reflexivity. Qed.

Lemma fillFieldData_extends (dataPath : string) (fd : FieldData) (i : nat)
    (offset : Z) (st : State) :
  extends st (snd (snd (fillFieldData dataPath fd i offset st))).
Proof.
  unfold fillFieldData, fillBinVecFieldData, fillFloatVecFieldData,
    fillBoolFieldData, fillStringFieldData, fillInt8FieldData,
    fillInt16FieldData, fillInt32FieldData, fillInt64FieldData,
    fillFloatFieldData, fillDoubleFieldData, fillFixedFieldData, vcmCall.
  break_matches; simpl;
    first [apply extends_refl | apply extends_logVcm].
Qed.

(** A vector fill makes one read: [rowBytes] bytes at
    [offset * rowBytes] of the path it is given. *)
Lemma fillFieldData_vector_read (dataPath : string) (fd : FieldData)
    (i : nat) (offset : Z) (st : State) :
  IsVectorType (fdType fd) = true ->
  snd (snd (fillFieldData dataPath fd i offset st)) =
  logVcm (V_ReadAt dataPath (wrapS64 (offset * rowBytesOf fd))
            (rowBytesOf fd)) st.
Proof.
  unfold fillFieldData, rowBytesOf, fillBinVecFieldData,
    fillFloatVecFieldData, vcmCall.
  destruct (fdType fd); simpl; try discriminate; intros _;
    break_matches; reflexivity.
Qed.

Lemma fillRows_extends (info : IndexedFieldInfo) (offsets : list Z) :
  forall i fd st, extends st (snd (snd (fillRows info i offsets fd st))).
Proof.
  induction offsets as [|offset rest IH]; intros i fd st; simpl.
  - apply extends_refl.
  - destruct (getFieldDataPath info offset) as [[path off]|m];
      [|apply extends_refl].
    pose proof (fillFieldData_extends path fd i off st) as Hstep.
    destruct (fillFieldData path fd i off st) as [[[err|]|m] [fd' st']];
      simpl in Hstep |- *; try exact Hstep.
    eapply extends_trans; [exact Hstep|apply IH].
Qed.

Lemma hasRawData_unhealthy (fieldID : Z) (st : State) :
  destroyed (seg st) = true -> hasRawData fieldID st = (Ret false, st).
Proof. intro Hd. unfold hasRawData, healthy. rewrite Hd. reflexivity. Qed.

(** *** Offsets past the last binlog *)

Lemma wrapS64_small (z : Z) : - 2 ^ 63 <= z < 2 ^ 63 -> wrapS64 z = z.
Proof. intro Hz. unfold wrapS64. rewrite Z.mod_small; lia. Qed.

Lemma totalEntries_nonneg (binlogs : list Binlog) :
  Forall (fun b => 0 <= EntriesNum b) binlogs -> 0 <= totalEntries binlogs.
Proof.
  induction 1 as [|b binlogs Hb _ IH]; simpl; lia.
Qed.

Lemma walkBinlogs_past_end (binlogs : list Binlog) :
  Forall (fun b => 0 <= EntriesNum b) binlogs ->
  forall offset,
    totalEntries binlogs <= offset < 2 ^ 63 ->
    walkBinlogs binlogs offset = ("", offset - totalEntries binlogs).
Proof.
  induction 1 as [|b binlogs Hb Hall IH]; intros offset Hoff; simpl in *.
  - rewrite Z.sub_0_r. reflexivity.
  - pose proof (totalEntries_nonneg binlogs Hall) as Hnn.
    rewrite (proj2 (Z.ltb_ge _ _)) by lia.
    rewrite wrapS64_small by lia.
    rewrite IH by lia. f_equal. lia.
Qed.

Lemma vcmGrows_refl (st : State) : vcmGrows st st.
Proof. exists []. rewrite app_nil_r. reflexivity. Qed.

Lemma vcmGrows_trans (a b c : State) :
  vcmGrows a b -> vcmGrows b c -> vcmGrows a c.
Proof.
  intros (e & He) (e' & He'). exists (e ++ e').
  rewrite He', He, app_assoc. reflexivity.
Qed.

Lemma extends_vcmGrows (st st' : State) : extends st st' -> vcmGrows st st'.
Proof. intros (_ & _ & H). exact H. Qed.

Lemma hasRawData_frame (fieldID : Z) (st : State) :
  seg (snd (hasRawData fieldID st)) = seg st /\
  vcmLog (snd (hasRawData fieldID st)) = vcmLog st.
Proof.
  unfold hasRawData, submit, logCgo.
  destruct (negb (healthy (seg st))); simpl; auto.
Qed.

Lemma fillFields_vcmGrows (offsets : list Z) (fields : list FieldData) :
  forall st, vcmGrows st (snd (snd (fillFields offsets fields st))).
Proof.
  induction fields as [|fd rest IH]; intro st; simpl.
  - apply vcmGrows_refl.
  - assert (Hcont : forall fd' st', vcmGrows st st' ->
              vcmGrows st
                (snd (snd (let '(r, (rest', st'')) :=
                             fillFields offsets rest st' in
                           (r, (fd' :: rest', st'')))))).
    { intros fd' st' Hg. specialize (IH st').
      destruct (fillFields offsets rest st') as [r [rest' st'']].
      simpl in *. eapply vcmGrows_trans; eauto. }
    destruct (negb (IsVectorType (fdType fd)));
      [apply Hcont, vcmGrows_refl|].
    destruct (negb (hasLoadIndexForIndexedField (seg st) (FieldId fd)));
      [apply Hcont, vcmGrows_refl|].
    pose proof (hasRawData_frame (FieldId fd) st) as (Hseg & Hlog).
    destruct (hasRawData (FieldId fd) st) as [[[|]|m] st1];
      simpl in Hseg, Hlog.
    + apply Hcont. exists []. rewrite app_nil_r. exact Hlog.
    + assert (Hg1 : vcmGrows st st1)
        by (exists []; rewrite app_nil_r; exact Hlog).
      destruct (getIndexedFieldInfo (seg st1) (FieldId fd)) as [e|info];
        [apply Hcont, Hg1|].
      pose proof (fillRows_extends info offsets 0 fd st1) as Hrows.
      apply extends_vcmGrows in Hrows.
      destruct (fillRows info 0 offsets fd st1) as [[[err|]|m] [fd' st2]];
        simpl in Hrows |- *;
        try (eapply vcmGrows_trans; [exact Hg1|exact Hrows]).
      apply Hcont. eapply vcmGrows_trans; eauto.
    + simpl. exists []. rewrite app_nil_r. exact Hlog.
Qed.

(** C10.  For binlogs with non-negative entry counts and a row offset at
    or past their total, [getFieldDataPath] returns the empty path with
    the offset less the total, and signals nothing; and
    [fillIndexedFieldsData], on a vector field whose index is loaded and
    holds no raw data, then reads from the blob store at that empty
    path. *)
Theorem offset_past_binlogs_reads_empty_path (st : State)
    (fb : FieldBinlog) (ii : FieldIndexInfo) (fd : FieldData)
    (rest : list FieldData) (offset : Z) (more : list Z)
    (collectionID : UniqueID) :
  Forall (fun b => 0 <= EntriesNum b) (Binlogs fb) ->
  totalEntries (Binlogs fb) <= offset < 2 ^ 63 ->
  let residual := offset - totalEntries (Binlogs fb) in
  (forall idx,
      getFieldDataPath (mkIndexedFieldInfo (Some fb) idx) offset =
      Ret ("", residual)) /\
  (IsVectorType (fdType fd) = true ->
   mapGet (FieldId fd) (indexedFieldInfos (seg st)) =
     Some (mkIndexedFieldInfo (Some fb) (Some ii)) ->
   EnableIndex ii = true ->
   fst (hasRawData (FieldId fd) st) = Ret false ->
   exists later,
     vcmLog (snd (snd (fillIndexedFieldsData collectionID
                         (mkRetrieveResults (offset :: more) (fd :: rest))
                         st))) =
     vcmLog st
     ++ V_ReadAt "" (wrapS64 (residual * rowBytesOf fd)) (rowBytesOf fd)
     :: later).
Proof.
  intros Hnn Hoff residual.
  assert (Hpath : forall idx,
             getFieldDataPath (mkIndexedFieldInfo (Some fb) idx) offset =
             Ret ("", residual)).
  { intro idx. unfold getFieldDataPath. simpl.
    rewrite (walkBinlogs_past_end _ Hnn offset Hoff). reflexivity. }
  split; [exact Hpath|].
  intros Hvec Hget Hen Hraw.
  unfold fillIndexedFieldsData. simpl Offset. simpl FieldsData.
  assert (Hgoal : exists later,
             vcmLog (snd (snd (fillFields (offset :: more) (fd :: rest) st)))
             = vcmLog st
               ++ V_ReadAt "" (wrapS64 (residual * rowBytesOf fd))
                    (rowBytesOf fd) :: later).
  { simpl fillFields. rewrite Hvec. simpl negb. cbv iota.
    unfold hasLoadIndexForIndexedField at 1. rewrite Hget. simpl indexInfo.
    cbv iota. rewrite Hen. simpl negb. cbv iota.
    pose proof (hasRawData_frame (FieldId fd) st) as (Hseg & Hlog).
    destruct (hasRawData (FieldId fd) st) as [r st1]. simpl in *.
    subst r. unfold getIndexedFieldInfo. rewrite Hseg, Hget.
    simpl fieldBinlog. simpl indexInfo. rewrite Hpath.
    pose proof (fillFieldData_vector_read "" fd 0 residual st1 Hvec)
      as Hread.
    destruct (fillFieldData "" fd 0 residual st1)
      as [[[err|]|m] [fd' st2]]; simpl in Hread; subst st2.
    - exists []. simpl. rewrite Hlog. reflexivity.
    - pose proof (fillRows_extends
                    (mkIndexedFieldInfo (Some fb) (Some ii)) more 1 fd'
                    (logVcm (V_ReadAt "" (wrapS64 (residual * rowBytesOf fd))
                               (rowBytesOf fd)) st1)) as Hrows.
      apply extends_vcmGrows in Hrows.
      destruct (fillRows _ 1 more fd' _) as [[[err|]|m] [fd'' st3]];
        simpl in Hrows.
      + destruct Hrows as (e & He). exists e. simpl.
        rewrite He. simpl. rewrite Hlog, <- app_assoc. reflexivity.
      + pose proof (fillFields_vcmGrows (offset :: more) rest st3)
          as (e' & He').
        destruct (fillFields (offset :: more) rest st3)
          as [r [rest' st4]]. simpl in He' |- *.
        destruct Hrows as (e & He). exists (e ++ e').
        rewrite He', He. simpl. rewrite Hlog, <- !app_assoc. reflexivity.
      + destruct Hrows as (e & He). exists e. simpl.
        rewrite He. simpl. rewrite Hlog, <- app_assoc. reflexivity.
    - exists []. simpl. rewrite Hlog. reflexivity. }
  destruct Hgoal as (later & Hlater). exists later.
  destruct (fillFields (offset :: more) (fd :: rest) st) as [r [fs st']].
  exact Hlater.
Qed.

(** *** The health gate *)

Lemma handleUses_app (l l' : list CgoCall) :
  handleUses (l ++ l') = handleUses l ++ handleUses l'.
Proof. unfold handleUses. apply flat_map_app. Qed.

Lemma handleUses_helper (l : list CgoCall) (h : HelperCall) :
  handleUses (l ++ [OnHelper h]) = handleUses l.
Proof. rewrite handleUses_app. simpl. apply app_nil_r. Qed.

Lemma untouched_refl (st : State) :
  destroyed (seg st) = true -> untouched st st.
Proof. intro Hd. repeat split; assumption. Qed.

Lemma fillFields_unhealthy (offsets : list Z) (fields : list FieldData) :
  forall st, destroyed (seg st) = true ->
    seg (snd (snd (fillFields offsets fields st))) = seg st /\
    cgoLog (snd (snd (fillFields offsets fields st))) = cgoLog st.
Proof.
  induction fields as [|fd rest IH]; intros st Hd; simpl; [auto|].
  assert (Hcont : forall fd' st', seg st' = seg st ->
            cgoLog st' = cgoLog st ->
            let out := (let '(r, (rest', st'')) :=
                          fillFields offsets rest st' in
                        (r, (fd' :: rest', st''))) in
            seg (snd (snd out)) = seg st /\
            cgoLog (snd (snd out)) = cgoLog st).
  { intros fd' st' Hs Hc. simpl.
    assert (Hd' : destroyed (seg st') = true) by congruence.
    specialize (IH st' Hd').
    destruct (fillFields offsets rest st') as [r [rest' st'']].
    simpl in *. destruct IH. split; congruence. }
  destruct (negb (IsVectorType (fdType fd))); [apply Hcont; reflexivity|].
  destruct (negb (hasLoadIndexForIndexedField (seg st) (FieldId fd)));
    [apply Hcont; reflexivity|].
  rewrite (hasRawData_unhealthy (FieldId fd) st Hd).
  destruct (getIndexedFieldInfo (seg st) (FieldId fd)) as [e|info];
    [apply Hcont; reflexivity|].
  pose proof (fillRows_extends info offsets 0 fd st) as (Hs & Hc & _).
  destruct (fillRows info 0 offsets fd st) as [[[err|]|m] [fd' st2]];
    simpl in Hs, Hc |- *; auto.
Qed.

Lemma stateAfter_unhealthy (op : Operation) (st : State) :
  gated op = true ->
  destroyed (seg st) = true ->
  untouched st (stateAfter op st).
Proof.
  intros Hg Hd.
  assert (Hh : healthy (seg st) = false) by (unfold healthy; rewrite Hd; reflexivity).
  destruct op; try discriminate Hg; unfold stateAfter.
  - rewrite (hasRawData_unhealthy _ st Hd). apply untouched_refl, Hd.
  - unfold getRealCount, statQuery. rewrite Hh. apply untouched_refl, Hd.
  - unfold getRowCount, statQuery. rewrite Hh. apply untouched_refl, Hd.
  - unfold getDeletedCount, statQuery. rewrite Hh. apply untouched_refl, Hd.
  - unfold getMemSize, statQuery. rewrite Hh. apply untouched_refl, Hd.
  - unfold search. rewrite Hh. apply untouched_refl, Hd.
  - unfold retrieve. rewrite Hh. apply untouched_refl, Hd.
  - unfold fillIndexedFieldsData.
    pose proof (fillFields_unhealthy (Offset res) (FieldsData res) st Hd)
      as (Hs & Hc).
    destruct (fillFields (Offset res) (FieldsData res) st)
      as [r [fs st']]. simpl in *.
    unfold untouched. rewrite Hs, Hc. auto.
  - unfold updateBloomFilter, InitCurrentStat.
    destruct (currentStat (seg st)) as [cur|] eqn:Hcur; simpl.
    + rewrite Hcur. destruct (addKeys pks cur). simpl.
      repeat split. exact Hd.
    + destruct (addKeys pks _). simpl. repeat split. exact Hd.
  - unfold segmentPreInsert. rewrite Hh.
    destruct (negb (SegmentState_eqb _ _)); apply untouched_refl, Hd.
  - unfold segmentInsert. rewrite Hh.
    destruct (negb (SegmentState_eqb _ _)); apply untouched_refl, Hd.
  - unfold segmentDelete.
    destruct (List.length entityIDs <=? 0)%nat; [apply untouched_refl, Hd|].
    destruct (negb _); [apply untouched_refl, Hd|].
    destruct (TryAppend _ entityIDs timestamps) as [[[|]|m] buf].
    + simpl. repeat split. exact Hd.
    + unfold deleteImpl. simpl seg.
      replace (healthy (set_deleteBuffer buf (seg st))) with false
        by (symmetry; exact Hh).
      simpl. repeat split. exact Hd.
    + simpl. repeat split. exact Hd.
  - unfold deleteImpl. rewrite Hh. apply untouched_refl, Hd.
  - unfold FlushDelete, Flush, flushHandler, deleteImpl. rewrite Hh.
    destruct (List.length _ =? 0)%nat; simpl; repeat split; exact Hd.
  - unfold LoadMultiFieldData. rewrite Hh. apply untouched_refl, Hd.
  - unfold LoadFieldData. rewrite Hh. apply untouched_refl, Hd.
  - unfold segmentLoadDeletedRecord.
    destruct (TryAppend _ primaryKeys timestamps) as [[[|]|m] buf].
    + simpl. repeat split. exact Hd.
    + simpl seg.
      replace (healthy (set_deleteBuffer buf (seg st))) with false
        by (symmetry; exact Hh).
      simpl. repeat split. exact Hd.
    + simpl. repeat split. exact Hd.
  - unfold segmentLoadIndexData, returnIndexInfo, helper, submit, logCgo.
    rewrite Hh. cbn [negb].
    repeat match goal with
           | |- context [if true then ?a else _] =>
               change (if true then a else _) with a
           | |- context [match ?x with _ => _ end] => destruct x
           | |- context [if ?c then _ else _] => destruct c
           end; simpl; unfold untouched; simpl;
      rewrite ?handleUses_helper; auto.
Qed.

Lemma run_unhealthy (ops : list Operation) :
  forall st,
    forallb gated ops = true ->
    destroyed (seg st) = true ->
    untouched st (fold_left (fun s op => stateAfter op s) ops st).
Proof.
  induction ops as [|op ops IH]; intros st Hg Hd; simpl.
  - apply untouched_refl, Hd.
  - simpl in Hg. apply andb_true_iff in Hg. destruct Hg as (Hop & Hops).
    destruct (stateAfter_unhealthy op st Hop Hd) as (Hd1 & Hid1 & Hu1).
    destruct (IH (stateAfter op st) Hops Hd1) as (Hd2 & Hid2 & Hu2).
    repeat split; congruence.
Qed.

(** C2 (as amended).  Once [setUnhealthy] has run: [search], [retrieve],
    [deleteImpl], [LoadMultiFieldData] and [LoadFieldData] return the
    unhealthy error with the segment's ID; so do [segmentPreInsert] and
    [segmentInsert] on a growing segment, [segmentDelete] (on a
    well-formed batch) and [segmentLoadDeletedRecord] once the buffer
    has been flushed, and [segmentLoadIndexData] on a sealed segment
    whose descriptor helpers succeed; the counters return [-1] and
    [hasRawData] false.  None of them changes the state, and through any
    sequence of operations that test [healthy] the segment stays
    unhealthy and no native call is given its handle. *)
Theorem unhealthy_segment_fails_fast (st0 : State) :
  let st := withSeg setUnhealthy st0 in
  let err := ErrSegmentUnhealthy (segmentID (seg st0)) in
  (forall req, search req st = (Ret (inl err), st)) /\
  (forall p, retrieve p st = (Ret (inl err), st)) /\
  (forall pks tss, deleteImpl pks tss st = (Ret (Some err), st)) /\
  (forall n fields, LoadMultiFieldData n fields st = (Ret (Some err), st)) /\
  (forall f n fb, LoadFieldData f n fb st = (Ret (Some err), st)) /\
  (getType (seg st0) = segmentTypeGrowing ->
   (forall n, segmentPreInsert n st = (Ret (-1, Some err), st)) /\
   (forall o ids tss record,
       segmentInsert o ids tss record st = (Ret (Some err), st))) /\
  (flushed (deleteBuffer (seg st0)) = true ->
   (forall pks tss,
       pks <> [] -> List.length pks = List.length tss ->
       segmentDelete pks tss st = (Ret (Some err), st)) /\
   (forall pks tss n,
       segmentLoadDeletedRecord pks tss n st = (Ret (Some err), st))) /\
  (getType (seg st0) = segmentTypeSealed ->
   forall ii fieldType,
     let new := engine (cgoLog st) (OnHelper H_newLoadIndexInfo) in
     let append :=
       engine (cgoLog st ++ [OnHelper H_newLoadIndexInfo])
         (OnHelper (H_appendLoadIndexInfo (intValue new) ii
                      (collectionID (seg st0)) (partitionID (seg st0))
                      (segmentID (seg st0)) fieldType)) in
     helperError new = None -> helperError append = None ->
     fst (segmentLoadIndexData ii fieldType st) = Ret (Some err)) /\
  (getRealCount st = (Ret (-1), st) /\ getRowCount st = (Ret (-1), st) /\
   getDeletedCount st = (Ret (-1), st) /\ getMemSize st = (Ret (-1), st) /\
   forall f, hasRawData f st = (Ret false, st)) /\
  (forall ops,
      forallb gated ops = true ->
      let st' := fold_left (fun s op => stateAfter op s) ops st in
      destroyed (seg st') = true /\
      handleUses (cgoLog st') = handleUses (cgoLog st)).
Proof.
  intros st err.
  assert (Hd : destroyed (seg st) = true) by reflexivity.
  assert (Hh : healthy (seg st) = false) by reflexivity.
  assert (Hid : unhealthyError (seg st) = err) by reflexivity.
  split; [intro req; unfold search; rewrite Hh, Hid; reflexivity|].
  split; [intro p; unfold retrieve; rewrite Hh, Hid; reflexivity|].
  split; [intros pks tss; unfold deleteImpl; rewrite Hh, Hid; reflexivity|].
  split; [intros n fs; unfold LoadMultiFieldData; rewrite Hh, Hid;
          reflexivity|].
  split; [intros f n fb; unfold LoadFieldData; rewrite Hh, Hid;
          reflexivity|].
  split.
  { intro Ht. assert (Ht' : getType (seg st) = segmentTypeGrowing)
      by exact Ht.
    split.
    - intro n. unfold segmentPreInsert. rewrite Ht', Hh, Hid. reflexivity.
    - intros o ids tss record. unfold segmentInsert.
      rewrite Ht', Hh, Hid. reflexivity. }
  split.
  { intro Hf. assert (Hf' : flushed (deleteBuffer (seg st)) = true)
      by exact Hf.
    split.
    - intros pks tss Hne Hlen. unfold segmentDelete.
      destruct pks as [|k pks]; [congruence|]. simpl Nat.leb. cbv iota.
      rewrite Hlen, Nat.eqb_refl. simpl negb. cbv iota.
      rewrite (TryAppend_flushed _ _ _ Hf'), setDeleteBuffer_same.
      unfold deleteImpl. rewrite Hh, Hid. reflexivity.
    - intros pks tss n. unfold segmentLoadDeletedRecord.
      rewrite (TryAppend_flushed _ _ _ Hf'), setDeleteBuffer_same.
      rewrite Hh, Hid. reflexivity. }
  split.
  { intros Ht ii fieldType new append Hnew Happend.
    assert (Ht' : getType (seg st) = segmentTypeSealed) by exact Ht.
    unfold segmentLoadIndexData, returnIndexInfo, helper, submit, logCgo.
    subst new append. subst st. cbn in Hnew, Happend |- *.
    rewrite Hnew. cbn. rewrite Happend.
    cbn in Ht'. rewrite Ht'. reflexivity. }
  split.
  { unfold getRealCount, getRowCount, getDeletedCount, getMemSize,
      statQuery. rewrite Hh. repeat split. }
  intros ops Hg st'.
  destruct (run_unhealthy ops st Hg Hd) as (Hd' & _ & Hu').
  split; assumption.
Qed.

(** [UpdateFieldRawDataSize] is the operation outside the gate: it
    hands the handle to the engine whatever the health flag says. *)
Lemma UpdateFieldRawDataSize_ungated (numRows : Z) (fb : FieldBinlog)
    (st : State) :
  exists size,
    cgoLog (snd (UpdateFieldRawDataSize numRows fb st)) =
    cgoLog st
    ++ [OnSegment (segmentPtr (seg st))
          (C_UpdateFieldRawDataSize (FieldID fb) numRows size)].
Proof.
  unfold UpdateFieldRawDataSize, submit, logCgo. simpl.
  eexists. reflexivity.
Qed.

End Operations.

(** ** The two sorts meet the contract *)

Lemma insertStable_perm (x : DeleteRecord) (l : list DeleteRecord) :
  Permutation (x :: l) (insertStable x l).
Proof.
  induction l as [|y l IH]; simpl; [reflexivity|].
  destruct (ByTimestamp_Less x y); [reflexivity|].
  rewrite perm_swap. constructor. exact IH.
Qed.

Lemma insertStable_ascending (x : DeleteRecord) (l : list DeleteRecord) :
  ascending l -> ascending (insertStable x l).
Proof.
  unfold ascending. induction 1 as [|y l Hs IH Hall]; simpl.
  - repeat constructor.
  - unfold ByTimestamp_Less. destruct (timestamp x <? timestamp y) eqn:Hlt.
    + apply Z.ltb_lt in Hlt. constructor; [constructor; assumption|].
      constructor; [lia|].
      eapply Forall_impl; [|exact Hall]. intros d Hd. simpl in Hd. lia.
    + apply Z.ltb_ge in Hlt. constructor; [exact IH|].
      eapply Permutation_Forall; [apply insertStable_perm|].
      constructor; [exact Hlt|exact Hall].
Qed.

Lemma insertion_fold (l : list DeleteRecord) :
  forall acc,
    ascending acc ->
    Permutation (acc ++ l)
      (fold_left (fun acc x => insertStable x acc) l acc) /\
    ascending (fold_left (fun acc x => insertStable x acc) l acc).
Proof.
  induction l as [|x l IH]; intros acc Hacc; simpl.
  - rewrite app_nil_r. split; [reflexivity|exact Hacc].
  - destruct (IH (insertStable x acc) (insertStable_ascending x acc Hacc))
      as (Hperm & Hasc).
    split; [|exact Hasc].
    rewrite <- Hperm. rewrite <- insertStable_perm.
    symmetry. apply Permutation_middle.
Qed.

Lemma stableSort_contract : SortContract stableSort.
Proof.
  intro l. unfold stableSort.
  destruct (insertion_fold l []) as (Hperm & Hasc); [constructor|].
  split; assumption.
Qed.

Lemma gapSwap_perm (front back : list DeleteRecord) :
  Permutation (front ++ back)
    (fst (gapSwap front back) ++ snd (gapSwap front back)).
Proof.
  revert back. induction front as [|x front IH]; intros [|y back]; simpl;
    try reflexivity.
  specialize (IH back).
  destruct (gapSwap front back) as [f b]. simpl in IH.
  destruct (ByTimestamp_Less y x); simpl.
  - rewrite <- !Permutation_middle. rewrite perm_swap.
    do 2 constructor. rewrite <- IH. reflexivity.
  - constructor. rewrite <- !Permutation_middle. constructor.
    rewrite <- IH. reflexivity.
Qed.

Lemma gapPass_perm (l : list DeleteRecord) : Permutation l (gapPass l).
Proof.
  unfold gapPass.
  pose proof (gapSwap_perm (firstn 6 l) (skipn 6 l)) as H.
  rewrite firstn_skipn in H.
  destruct (gapSwap (firstn 6 l) (skipn 6 l)) as [f b]. exact H.
Qed.

Lemma shortSliceSort_contract : SortContract shortSliceSort.
Proof.
  intro l. unfold shortSliceSort.
  destruct (stableSort_contract (gapPass l)) as (Hperm & Hasc).
  split; [|exact Hasc].
  rewrite <- Hperm. apply gapPass_perm.
Qed.

(** [stableSort] is stable: the records of any one timestamp come out in
    the order they went in. *)
Lemma insertStable_filter (t : Z) (x : DeleteRecord) (l : list DeleteRecord) :
  ascending l ->
  filter (fun d => timestamp d =? t) (insertStable x l) =
  filter (fun d => timestamp d =? t) l
  ++ filter (fun d => timestamp d =? t) [x].
Proof.
  unfold ascending. induction 1 as [|y l Hs IH Hall]; simpl.
  - reflexivity.
  - unfold ByTimestamp_Less. destruct (timestamp x <? timestamp y) eqn:Hlt.
    + apply Z.ltb_lt in Hlt. simpl.
      destruct (timestamp x =? t) eqn:Hx; [|rewrite app_nil_r; reflexivity].
      apply Z.eqb_eq in Hx.
      rewrite (proj2 (Z.eqb_neq (timestamp y) t)) by lia.
      rewrite (filter_none (fun d => timestamp d =? t) l).
      * reflexivity.
      * eapply Forall_impl; [|exact Hall]. intros d Hd. simpl in Hd.
        apply Z.eqb_neq. lia.
    + simpl. rewrite IH. simpl.
      destruct (timestamp y =? t); reflexivity.
Qed.

Lemma stableSort_stable (l : list DeleteRecord) (t : Z) :
  filter (fun d => timestamp d =? t) (stableSort l) =
  filter (fun d => timestamp d =? t) l.
Proof.
  unfold stableSort.
  assert (H : forall acc, ascending acc ->
            filter (fun d => timestamp d =? t)
              (fold_left (fun acc x => insertStable x acc) l acc) =
            filter (fun d => timestamp d =? t) acc
            ++ filter (fun d => timestamp d =? t) l).
  { induction l as [|x l IH]; intros acc Hacc; simpl fold_left.
    - simpl. rewrite app_nil_r. reflexivity.
    - rewrite IH by (apply insertStable_ascending; exact Hacc).
      rewrite insertStable_filter by exact Hacc.
      rewrite <- app_assoc. simpl.
      destruct (timestamp x =? t); reflexivity. }
  apply (H []). constructor.
Qed.

(** ** Worked instances: the theorems at concrete inputs *)

(** *** C1 *)

Lemma deleteImpl_suffix_witness :
  deleteImpl quietEngine tagMarshal [key 1; key 2; key 3] [5; 10; 15]
    (stateOf (flushedAt 10)) =
  (Ret None,
   mkState (flushedAt 10)
     [OnSegment (Some 4096) (C_Delete 0 1 [x0a; x03] [15])] []).
Proof.
  assert (Hw : 0 <= flushedDeletedTimestamp (seg (stateOf (flushedAt 10)))
               < MaxUint64) by (cbn; unfold MaxUint64; lia).
  assert (Hs : Sorted Z.le [5; 10; 15])
    by (repeat first [apply Sorted_cons | apply Sorted_nil
                      | apply HdRel_cons | apply HdRel_nil | lia]).
  pose proof (deleteImpl_suffix_and_watermark stableSort quietEngine
                tagMarshal (stateOf (flushedAt 10)) [key 1; key 2; key 3]
                [5; 10; 15] stableSort_contract eq_refl Hw eq_refl Hs) as H.
  cbv zeta in H. destruct H as (_ & H & _).
  apply (H (IDs_IntId [3]) [x0a; x03]);
    [discriminate | reflexivity | reflexivity | discriminate].
Defined.

(** C1 as first stated has the watermark advance on the direct path; on
    that path it stays where it was. *)
Lemma deleteImpl_direct_keeps_watermark :
  let st := stateOf (flushedAt 10) in
  let out := deleteImpl quietEngine tagMarshal [key 1; key 2] [11; 12] st in
  fst out = Ret None /\
  cgoLog (snd out) =
    [OnSegment (Some 4096) (C_Delete 0 2 [x0a; x01; x02] [11; 12])] /\
  flushedDeletedTimestamp (seg (snd out)) = 10 /\
  flushedDeletedTimestamp (seg (snd out)) <> 12.
Proof.
  vm_compute. repeat split. discriminate.
Qed.

(** A flush on a healthy segment: the buffered batch is applied in one
    call and the watermark becomes its last timestamp. *)
Lemma FlushDelete_moves_watermark :
  let buffered :=
    set_deleteBuffer
      (mkDeleteRecords [mkDeleteRecord (key 2) 12; mkDeleteRecord (key 1) 11]
         false) (freshSegment Growing) in
  let out := FlushDelete stableSort quietEngine tagMarshal (stateOf buffered) in
  fst out = Ret None /\
  cgoLog (snd out) =
    [OnSegment (Some 4096) (C_Delete 0 2 [x0a; x01; x02] [11; 12])] /\
  flushedDeletedTimestamp (seg (snd out)) = 12 /\
  deleteBuffer (seg (snd out)) = mkDeleteRecords [] true.
Proof. vm_compute. repeat split. Qed.

(** *** C2 *)

(** Operations on an unhealthy segment that return no unhealthy error: a
    sealed segment's [segmentPreInsert], a counter, and a delete that is
    still being buffered. *)
Lemma unhealthy_without_error :
  let st := withSeg setUnhealthy (stateOf (freshSegment Sealed)) in
  segmentPreInsert quietEngine 5 st = (Ret (0, None), st) /\
  getRowCount quietEngine st = (Ret (-1), st) /\
  segmentDelete quietEngine tagMarshal [key 1] [5] st =
  (Ret None,
   setDeleteBuffer (mkDeleteRecords [mkDeleteRecord (key 1) 5] false) st).
Proof. vm_compute. repeat split. Qed.

(** After [deleteSegment] the handle is nil and the segment unhealthy;
    [UpdateFieldRawDataSize] still passes the handle to the engine and
    returns nil. *)
Lemma UpdateFieldRawDataSize_after_destroy :
  let st := snd (deleteSegment quietEngine (stateOf (freshSegment Sealed))) in
  destroyed (seg st) = true /\
  segmentPtr (seg st) = None /\
  fst (UpdateFieldRawDataSize quietEngine 15 sampleFieldBinlog st) = Ret None /\
  cgoLog (snd (UpdateFieldRawDataSize quietEngine 15 sampleFieldBinlog st)) =
    cgoLog st ++ [OnSegment None (C_UpdateFieldRawDataSize 101 15 120)].
Proof. vm_compute. repeat split. Qed.

(** *** C3 *)

Lemma Flush_sorts_witness :
  exists sorted,
    Permutation (records (mkDeleteRecords sevenRecords false)) sorted /\
    ascending sorted /\
    fst (Flush stableSort (recordCall None)
           (mkDeleteRecords sevenRecords false) []) =
      fst (recordCall None (map pk sorted) (map timestamp sorted) []) /\
    snd (snd (Flush stableSort (recordCall None)
                (mkDeleteRecords sevenRecords false) [])) =
      snd (recordCall None (map pk sorted) (map timestamp sorted) []) /\
    forall verdict log,
      snd (snd (Flush stableSort (recordCall verdict)
                  (mkDeleteRecords sevenRecords false) log)) =
      log ++ [(map pk sorted, map timestamp sorted)].
Proof.
  exact (Flush_sorts_then_applies_once stableSort (recordCall None)
           (mkDeleteRecords sevenRecords false) [] stableSort_contract).
Defined.

(** With a sort that meets the contract of [sort.Sort], the handler is
    given the records of timestamp 1 in another order than the buffer's. *)
Lemma Flush_order_not_stable :
  SortContract shortSliceSort /\
  snd (snd (Flush shortSliceSort (recordCall None)
              (mkDeleteRecords sevenRecords false) [])) =
    [(map key [6; 1; 2; 3; 4; 5; 0], [1; 1; 1; 1; 1; 1; 2])] /\
  map pk (stableSort sevenRecords) = map key [1; 2; 3; 4; 5; 6; 0] /\
  map pk (shortSliceSort sevenRecords) <> map pk (stableSort sevenRecords).
Proof.
  split; [exact shortSliceSort_contract|].
  vm_compute. repeat split. discriminate.
Qed.

(** *** C4 *)

Lemma Flush_failure_witness :
  exists r',
    Flush stableSort (recordCall (Some (ErrText "engine unavailable")))
      (mkDeleteRecords sevenRecords false) [] =
    (Ret (Some (ErrText "engine unavailable")),
     (r', [(map pk (stableSort sevenRecords),
            map timestamp (stableSort sevenRecords))])) /\
    flushed r' = false /\
    Permutation sevenRecords (records r') /\
    forall pks tss,
      List.length pks = List.length tss ->
      TryAppend r' pks tss =
      (Ret true, mkDeleteRecords (records r' ++ zipRecords pks tss) false).
Proof.
  destruct (Flush_failure_keeps_buffer stableSort
              (recordCall (Some (ErrText "engine unavailable")))
              (mkDeleteRecords sevenRecords false) []
              stableSort_contract eq_refl) as (H & _).
  exact (H (ErrText "engine unavailable") _ eq_refl).
Defined.

(** *** C5 *)

Lemma deleteImpl_replay_witness :
  deleteImpl quietEngine tagMarshal [key 1; key 2] [5; 10]
    (stateOf (flushedAt 10)) =
  (Ret None, stateOf (flushedAt 10)).
Proof.
  apply (deleteImpl_replay_is_noop quietEngine tagMarshal
           (stateOf (flushedAt 10)) [key 1; key 2] [5; 10] eq_refl).
  - cbn. unfold MaxUint64. lia.
  - cbn. repeat constructor; lia.
Defined.

(** On an unhealthy segment the replayed batch is answered with an error. *)
Lemma deleteImpl_replay_on_unhealthy :
  let st := withSeg setUnhealthy (stateOf (flushedAt 10)) in
  deleteImpl quietEngine tagMarshal [key 1; key 2] [5; 10] st =
  (Ret (Some (ErrSegmentUnhealthy 7)), st).
Proof. vm_compute. reflexivity. Qed.

(** At the largest watermark the sum in [uint64] wraps to zero and the
    whole batch is submitted again. *)
Lemma deleteImpl_watermark_wraps :
  let st := stateOf (flushedAt MaxUint64) in
  cgoLog (snd (deleteImpl quietEngine tagMarshal [key 1] [5] st)) =
  [OnSegment (Some 4096) (C_Delete 0 1 [x0a; x01] [5])].
Proof. vm_compute. reflexivity. Qed.

(** *** C7 *)

(** While the buffer is unflushed [segmentLoadDeletedRecord] takes an
    empty batch without an error, and a batch with fewer timestamps than
    keys panics after its first record has been buffered. *)
Lemma segmentLoadDeletedRecord_accepts_malformed :
  let st := stateOf (freshSegment Sealed) in
  segmentLoadDeletedRecord quietEngine tagMarshal [] [] 0 st = (Ret None, st) /\
  segmentLoadDeletedRecord quietEngine tagMarshal [key 1; key 2] [5] 2 st =
  (Panic "index out of range",
   setDeleteBuffer (mkDeleteRecords [mkDeleteRecord (key 1) 5] false) st).
Proof. vm_compute. repeat split. Qed.

(** *** C10 *)

Lemma offset_past_binlogs_witness :
  getFieldDataPath (mkIndexedFieldInfo (Some sampleFieldBinlog) None) 20 =
    Ret ("", 5) /\
  exists later,
    vcmLog (snd (snd (fillIndexedFieldsData quietEngine emptyStore noBools
                        noStrings LittleEndian 1
                        (mkRetrieveResults [20] [binaryField])
                        (stateOf indexedSegment)))) =
    [] ++ V_ReadAt "" 10 2 :: later.
Proof.
  assert (Hnn : Forall (fun b => 0 <= EntriesNum b) (Binlogs sampleFieldBinlog))
    by (cbn; repeat constructor; cbn; lia).
  assert (Hoff : totalEntries (Binlogs sampleFieldBinlog) <= 20 < 2 ^ 63)
    by (cbn; lia).
  destruct (offset_past_binlogs_reads_empty_path quietEngine emptyStore
              noBools noStrings LittleEndian (stateOf indexedSegment)
              sampleFieldBinlog sampleIndexInfo binaryField [] 20 []
              1 Hnn Hoff) as (Hpath & Hread).
  split; [exact (Hpath None)|].
  exact (Hread eq_refl eq_refl eq_refl eq_refl).
Defined.



(** * Further properties of the segment code *)

(** ** Locating a row in the binlogs ([getFieldDataPath]) *)

(** X1.  With non-negative entry counts, a row offset that falls inside
    the binlog [b] of the list (at or past the total of the binlogs before
    it, short of that total plus [b]'s own count) is answered with [b]'s
    path and the offset inside [b]. *)
Theorem getFieldDataPath_locates (before after : list Binlog) (b : Binlog)
    (fieldID : UniqueID) (idx : option FieldIndexInfo) (offset : Z) :
  Forall (fun x => 0 <= EntriesNum x) before ->
  totalEntries before <= offset < totalEntries before + EntriesNum b ->
  offset < 2 ^ 63 ->
  getFieldDataPath
    (mkIndexedFieldInfo (Some (mkFieldBinlog fieldID (before ++ b :: after)))
       idx) offset =
  Ret (LogPath b, offset - totalEntries before).
Proof.
  intros Hnn Hoff Hmax. unfold getFieldDataPath. simpl. f_equal.
  revert offset Hoff Hmax.
  induction Hnn as [|x before Hx Hall IH]; intros offset Hoff Hmax;
    simpl in *.
  - rewrite (proj2 (Z.ltb_lt _ _)) by lia. f_equal. lia.
  - pose proof (totalEntries_nonneg before Hall) as Hnn.
    rewrite (proj2 (Z.ltb_ge _ _)) by lia.
    rewrite wrapS64_small by lia.
    rewrite IH by lia. f_equal. lia.
Qed.

Lemma getFieldDataPath_locates_witness :
  getFieldDataPath (mkIndexedFieldInfo (Some sampleFieldBinlog) None) 12 =
  Ret ("files/insert_log/2", 2).
Proof.
  apply (getFieldDataPath_locates [mkBinlog 10 "files/insert_log/1" 80] []
           (mkBinlog 5 "files/insert_log/2" 40) 101 None 12).
  - repeat constructor. cbn. lia.
  - cbn. lia.
  - lia.
Defined.

(** ** The cut [deleteImpl] makes, sorted input or not *)

(** The loop of [sort.Search] keeps "the predicate fails just below [i]
    and holds at [j]" whatever the predicate is. *)
Lemma searchLoop_boundary (f : nat -> bool) (n : nat) :
  forall i j, (i <= j)%nat ->
    ((0 < i)%nat -> f (i - 1)%nat = false) ->
    ((j < n)%nat -> f j = true) ->
    (i <= searchLoop f i j <= j)%nat /\
    ((0 < searchLoop f i j)%nat -> f (searchLoop f i j - 1)%nat = false) /\
    ((searchLoop f i j < n)%nat -> f (searchLoop f i j) = true).
Proof.
  intros i j. funelim (searchLoop f i j); intros Hij Hlo Hhi.
  - assert (i = j) by lia. subst. repeat split; auto; lia.
  - match goal with Hlt : (i < j)%nat |- _ =>
      pose proof (midpoint_bounds i j Hlt) as Hmid end.
    match goal with IH : forall n : nat, _ |- _ =>
      destruct (IH n) as (Hr & Hbelow & Habove); try lia; auto end.
    repeat split; auto; lia.
  - match goal with Hlt : (i < j)%nat |- _ =>
      pose proof (midpoint_bounds i j Hlt) as Hmid end.
    match goal with IH : forall n : nat, _ |- _ =>
      destruct (IH n) as (Hr & Hbelow & Habove); try lia; auto end.
    + intros _. replace (S ((i + j) / 2) - 1)%nat with ((i + j) / 2)%nat
        by lia. assumption.
    + repeat split; auto; lia.
Qed.

(** X2.  Whatever the order of the timestamps, the index at which
    [deleteImpl] cuts the batch has a timestamp above the watermark at it
    (when it is inside the batch) and one at or below the watermark just
    before it (when it is not the start): the first record submitted is
    never one already applied. *)
Theorem firstUnapplied_boundary (w : Timestamp) (tss : list Timestamp) :
  0 <= w < MaxUint64 ->
  let start := firstUnapplied w tss in
  (start <= List.length tss)%nat /\
  ((start < List.length tss)%nat -> w < nth start tss 0) /\
  ((0 < start)%nat -> nth (start - 1) tss 0 <= w).
Proof.
  intros Hw start. unfold start, firstUnapplied, Search.
  rewrite (wrapU64_succ w Hw).
  destruct (searchLoop_boundary (fun i => w + 1 <=? nth i tss 0)
              (List.length tss) 0 (List.length tss))
    as (Hr & Hbelow & Habove); lia.
Qed.

Lemma firstUnapplied_boundary_witness :
  10 < nth (firstUnapplied 10 [20; 5; 30; 7]) [20; 5; 30; 7] 0.
Proof.
  assert (Hw : 0 <= 10 < MaxUint64) by (unfold MaxUint64; lia).
  destruct (firstUnapplied_boundary 10 [20; 5; 30; 7] Hw) as (_ & H & _).
  apply H. vm_compute. lia.
Defined.

(** ** The tombstone buffer *)

Lemma appendRecords_any (pks : list primaryKey) (tss : list Timestamp) :
  forall recs,
    appendRecords pks tss recs =
    (if (List.length tss <? List.length pks)%nat
     then Panic "index out of range" else Ret tt,
     recs ++ zipRecords pks tss).
Proof.
  revert tss. induction pks as [|k pks IH]; intros tss recs; simpl.
  - rewrite app_nil_r. destruct (List.length tss); reflexivity.
  - destruct tss as [|t tss]; simpl.
    + rewrite app_nil_r. reflexivity.
    + rewrite IH. rewrite <- app_assoc. reflexivity.
Qed.

(** X3.  On an unflushed buffer [TryAppend] pairs keys with timestamps up
    to the shorter of the two sequences and appends those pairs; it reports
    true unless the timestamps ran out first, in which case it panics with
    the pairs before that point already in the buffer.  Surplus timestamps
    are ignored. *)
Theorem TryAppend_pairs (r : DeleteRecords) (pks : list primaryKey)
    (tss : list Timestamp) :
  flushed r = false ->
  TryAppend r pks tss =
  (if (List.length tss <? List.length pks)%nat
   then Panic "index out of range" else Ret true,
   mkDeleteRecords (records r ++ zipRecords pks tss) false) /\
  List.length (zipRecords pks tss) =
    Nat.min (List.length pks) (List.length tss).
Proof.
  intro Hf. split.
  - unfold TryAppend. rewrite Hf, appendRecords_any.
    destruct (List.length tss <? List.length pks)%nat; reflexivity.
  - unfold zipRecords. rewrite length_map, length_combine. reflexivity.
Qed.

Lemma TryAppend_pairs_witness :
  TryAppend (mkDeleteRecords [] false) [key 1; key 2; key 3] [5; 6] =
  (Panic "index out of range",
   mkDeleteRecords [mkDeleteRecord (key 1) 5; mkDeleteRecord (key 2) 6]
     false).
Proof.
  exact (proj1 (TryAppend_pairs (mkDeleteRecords [] false)
                  [key 1; key 2; key 3] [5; 6] eq_refl)).
Defined.

(** X4.  Between an accepted append and the next flush nothing is lost or
    duplicated: the handler is given, in ascending timestamp order, a
    permutation of the records that were buffered together with the pairs
    just appended. *)
Theorem appended_records_reach_handler
    (sortSort : list DeleteRecord -> list DeleteRecord) {X : Type}
    (handler : list primaryKey -> list Timestamp -> X ->
               result (option error) * X)
    (r : DeleteRecords) (pks : list primaryKey) (tss : list Timestamp)
    (x : X) :
  SortContract sortSort ->
  flushed r = false ->
  List.length pks = List.length tss ->
  exists r' sorted,
    TryAppend r pks tss = (Ret true, r') /\
    Permutation (records r ++ zipRecords pks tss) sorted /\
    ascending sorted /\
    fst (Flush sortSort handler r' x) =
      fst (handler (map pk sorted) (map timestamp sorted) x) /\
    snd (snd (Flush sortSort handler r' x)) =
      snd (handler (map pk sorted) (map timestamp sorted) x).
Proof.
  intros Hsort Hf Hlen.
  exists (mkDeleteRecords (records r ++ zipRecords pks tss) false).
  exists (sortSort (records r ++ zipRecords pks tss)).
  destruct (Hsort (records r ++ zipRecords pks tss)) as (Hperm & Hasc).
  split; [apply TryAppend_unflushed; assumption|].
  split; [exact Hperm|]. split; [exact Hasc|].
  unfold Flush. simpl records.
  destruct (handler _ _ x) as [[[err|]|m] x']; split; reflexivity.
Qed.

Lemma appended_records_witness :
  exists r' sorted,
    TryAppend (mkDeleteRecords [mkDeleteRecord (key 9) 3] false)
      [key 1; key 2] [7; 5] = (Ret true, r') /\
    Permutation
      ([mkDeleteRecord (key 9) 3] ++ zipRecords [key 1; key 2] [7; 5]) sorted /\
    ascending sorted /\
    fst (Flush stableSort (recordCall None) r' []) =
      fst (recordCall None (map pk sorted) (map timestamp sorted) []) /\
    snd (snd (Flush stableSort (recordCall None) r' [])) =
      snd (recordCall None (map pk sorted) (map timestamp sorted) []).
Proof.
  exact (appended_records_reach_handler stableSort (recordCall None)
           (mkDeleteRecords [mkDeleteRecord (key 9) 3] false)
           [key 1; key 2] [7; 5] [] stableSort_contract eq_refl eq_refl).
Defined.

(** ** What a flush hands to the engine *)






(** A growing segment with two deletes buffered out of order. *)
Definition bufferedState : State :=
  stateOf (set_deleteBuffer
             (mkDeleteRecords
                [mkDeleteRecord (key 2) 12; mkDeleteRecord (key 1) 11] false)
             (freshSegment Growing)).


(** X6.  A flush of an empty buffer is accepted whatever the state of the
    segment, the unhealthy one included: nil is returned, nothing is
    called, the watermark stays, and the buffer is marked flushed. *)
Theorem FlushDelete_empty_buffer
    (sortSort : list DeleteRecord -> list DeleteRecord)
    (engine : list CgoCall -> CgoCall -> CReply)
    (protoMarshalIDs : IDs -> error + list byte) (st : State) :
  SortContract sortSort ->
  records (deleteBuffer (seg st)) = [] ->
  FlushDelete sortSort engine protoMarshalIDs st =
  (Ret None, setDeleteBuffer (mkDeleteRecords [] true) st).
Proof.
  intros Hsort Hempty.
  destruct (Hsort []) as (Hperm & _). apply Permutation_nil in Hperm.
  unfold FlushDelete, Flush, flushHandler. rewrite Hempty, Hperm.
  reflexivity.
Qed.

Lemma FlushDelete_empty_witness :
  let st := withSeg setUnhealthy (stateOf (freshSegment Sealed)) in
  FlushDelete stableSort quietEngine tagMarshal st =
  (Ret None, setDeleteBuffer (mkDeleteRecords [] true) st).
Proof.
  exact (FlushDelete_empty_buffer stableSort quietEngine tagMarshal
           (withSeg setUnhealthy (stateOf (freshSegment Sealed)))
           stableSort_contract eq_refl).
Defined.

(** ** Destruction *)

(** X7.  [deleteSegment] leaves the segment unhealthy with a nil handle.
    The native destroy is submitted only when the handle was not nil, so a
    second [deleteSegment] changes nothing and calls nothing.  The two
    statistics generations are dropped on the path that destroys, and kept
    on the early return taken when the handle was already nil. *)
Theorem deleteSegment_once (engine : list CgoCall -> CgoCall -> CReply)
    (st : State) :
  let st1 := snd (deleteSegment engine st) in
  destroyed (seg st1) = true /\
  segmentPtr (seg st1) = None /\
  deleteSegment engine st1 = (Ret tt, st1) /\
  cgoLog st1 =
    cgoLog st
    ++ match segmentPtr (seg st) with
       | Some p => [OnSegment (Some p) C_DeleteSegment]
       | None => []
       end /\
  match segmentPtr (seg st) with
  | Some _ => currentStat (seg st1) = None /\ historyStats (seg st1) = []
  | None => currentStat (seg st1) = currentStat (seg st) /\
            historyStats (seg st1) = historyStats (seg st)
  end.
Proof.
  destruct st as [s cl vl]. destruct s as [ptr]. unfold deleteSegment.
  simpl. destruct ptr as [p|]; simpl; rewrite ?app_nil_r; repeat split.
Qed.

(** ** Field infos *)

Lemma mapGet_app (f : UniqueID) (m m' : list (UniqueID * IndexedFieldInfo)) :
  mapGet f (m ++ m') =
  match mapGet f m with
  | Some v => Some v
  | None => mapGet f m'
  end.
Proof.
  induction m as [|[k v] m IH]; simpl; [reflexivity|].
  destruct (k =? f); [reflexivity|exact IH].
Qed.

(** X8.  [setIndexedFieldInfo] inserts once per field: on a field without
    an entry the info is what a lookup then returns; on a field that has
    one the segment is left as it is, so a second insert never replaces the
    first; and the entries of other fields are not affected. *)
Theorem setIndexedFieldInfo_first_wins (s : Segment) (f : UniqueID)
    (info info' : IndexedFieldInfo) :
  let s1 := setIndexedFieldInfo f info s in
  (mapGet f (indexedFieldInfos s) = None ->
   mapGet f (indexedFieldInfos s1) = Some info /\
   getIndexedFieldInfo s1 f =
     inr (mkIndexedFieldInfo (fieldBinlog info) (indexInfo info))) /\
  (forall old, mapGet f (indexedFieldInfos s) = Some old -> s1 = s) /\
  setIndexedFieldInfo f info' s1 = s1 /\
  (forall g, g <> f ->
     mapGet g (indexedFieldInfos s1) = mapGet g (indexedFieldInfos s)).
Proof.
  intro s1. unfold s1, setIndexedFieldInfo.
  destruct (mapGet f (indexedFieldInfos s)) as [old|] eqn:Hget.
  - split; [discriminate|]. split; [reflexivity|].
    split; [rewrite Hget; reflexivity|]. reflexivity.
  - assert (Hnew : mapGet f (indexedFieldInfos
                     (set_indexedFieldInfos
                        (indexedFieldInfos s ++ [(f, info)]) s)) = Some info).
    { simpl. rewrite mapGet_app, Hget. simpl. rewrite Z.eqb_refl.
      reflexivity. }
    split; [|split; [discriminate|split]].
    + intros _. split; [exact Hnew|].
      unfold getIndexedFieldInfo. rewrite Hnew. reflexivity.
    + rewrite Hnew. reflexivity.
    + intros g Hg. simpl. rewrite mapGet_app.
      destruct (mapGet g (indexedFieldInfos s)); [reflexivity|].
      simpl. rewrite (proj2 (Z.eqb_neq f g)) by congruence. reflexivity.
Qed.

(** ** Key sets *)

Lemma int64Values_iff (pks : list primaryKey) (vs : list Z) :
  int64Values pks = Ret vs <-> pks = map int64PrimaryKey vs.
Proof.
  revert vs. induction pks as [|k pks IH]; intro vs; simpl.
  - split; intro H.
    + inversion H. reflexivity.
    + destruct vs; [reflexivity|discriminate].
  - destruct k as [v|s|]; try (split; [discriminate|]; destruct vs;
                                discriminate).
    destruct (int64Values pks) as [vs'|m] eqn:Hrest.
    + split; intro H.
      * inversion H; subst. simpl. f_equal. apply IH. reflexivity.
      * destruct vs as [|v0 vs0]; [discriminate|]. simpl in H.
        inversion H; subst. f_equal. f_equal.
        assert (Hr : Ret vs' = Ret vs0) by (apply IH; reflexivity).
        inversion Hr. reflexivity.
    + split; [discriminate|]. intro H.
      destruct vs as [|v0 vs0]; [discriminate|]. simpl in H.
      inversion H; subst.
      assert (Hr : @Panic (list Z) m = Ret vs0) by (apply IH; reflexivity).
      discriminate.
Qed.

Lemma varCharValues_iff (pks : list primaryKey) (vs : list string) :
  varCharValues pks = Ret vs <-> pks = map varCharPrimaryKey vs.
Proof.
  revert vs. induction pks as [|k pks IH]; intro vs; simpl.
  - split; intro H.
    + inversion H. reflexivity.
    + destruct vs; [reflexivity|discriminate].
  - destruct k as [v|s|]; try (split; [discriminate|]; destruct vs;
                                discriminate).
    destruct (varCharValues pks) as [vs'|m] eqn:Hrest.
    + split; intro H.
      * inversion H; subst. simpl. f_equal. apply IH. reflexivity.
      * destruct vs as [|v0 vs0]; [discriminate|]. simpl in H.
        inversion H; subst. f_equal. f_equal.
        assert (Hr : Ret vs' = Ret vs0) by (apply IH; reflexivity).
        inversion Hr. reflexivity.
    + split; [discriminate|]. intro H.
      destruct vs as [|v0 vs0]; [discriminate|]. simpl in H.
      inversion H; subst.
      assert (Hr : @Panic (list string) m = Ret vs0)
        by (apply IH; reflexivity).
      discriminate.
Qed.

(** X10.  The key set built for the engine is the integer variant exactly
    for a non-empty batch of integer keys, and the string variant exactly
    for a non-empty batch of string keys, with the values in batch order;
    a batch that mixes kinds never yields a key set. *)
Theorem keySet_uniform (pks : list primaryKey) :
  (forall vs, keySet pks = Ret (inr (IDs_IntId vs)) <->
              pks <> [] /\ pks = map int64PrimaryKey vs) /\
  (forall vs, keySet pks = Ret (inr (IDs_StrId vs)) <->
              pks <> [] /\ pks = map varCharPrimaryKey vs).
Proof.
  split; intro vs; unfold keySet.
  - destruct pks as [|k pks]; [split; [discriminate|intros [H _]; congruence]|].
    destruct k as [v|s|]; simpl pkType; cbv iota.
    + destruct (int64Values (int64PrimaryKey v :: pks)) as [vs'|m] eqn:Hv.
      * split.
        -- intro H. inversion H; subst. split; [discriminate|].
           apply int64Values_iff. exact Hv.
        -- intros [_ H]. apply int64Values_iff in H. congruence.
      * split; [discriminate|]. intros [_ H].
        apply int64Values_iff in H. congruence.
    + destruct (varCharValues (varCharPrimaryKey s :: pks)) as [vs'|m];
        (split; [discriminate|]); intros [_ H];
        destruct vs; discriminate.
    + split; [discriminate|]. intros [_ H]. destruct vs; discriminate.
  - destruct pks as [|k pks]; [split; [discriminate|intros [H _]; congruence]|].
    destruct k as [v|s|]; simpl pkType; cbv iota.
    + destruct (int64Values (int64PrimaryKey v :: pks)) as [vs'|m];
        (split; [discriminate|]); intros [_ H];
        destruct vs; discriminate.
    + destruct (varCharValues (varCharPrimaryKey s :: pks)) as [vs'|m] eqn:Hv.
      * split.
        -- intro H. inversion H; subst. split; [discriminate|].
           apply varCharValues_iff. exact Hv.
        -- intros [_ H]. apply varCharValues_iff in H. congruence.
      * split; [discriminate|]. intros [_ H].
        apply varCharValues_iff in H. congruence.
    + split; [discriminate|]. intros [_ H]. destruct vs; discriminate.
Qed.

(** ** The byte encoding of keys *)

Lemma ZOfByte_byteOfZ (z : Z) : ZOfByte (byteOfZ z) = z mod 256.
Proof.
  unfold ZOfByte, byteOfZ.
  assert (Hb : 0 <= z mod 256 < 256) by (apply Z.mod_pos_bound; lia).
  destruct (Byte.of_N (Z.to_N (z mod 256))) as [b|] eqn:Hof.
  - apply Byte.to_of_N in Hof. rewrite Hof. apply Z2N.id. lia.
  - apply Byte.of_N_None_iff in Hof. lia.
Qed.

Lemma littleEndian_value (v : Z) (n : nat) :
  forall k,
    fold_right (fun b acc => ZOfByte b + 256 * acc) 0
      (map (fun i => byteOfZ (Z.shiftr v (8 * Z.of_nat i))) (seq k n)) =
    (v / 2 ^ (8 * Z.of_nat k)) mod 2 ^ (8 * Z.of_nat n).
Proof.
  induction n as [|n IH]; intro k.
  - simpl. rewrite Z.mod_1_r. reflexivity.
  - cbn [seq map fold_right]. rewrite IH, ZOfByte_byteOfZ.
    rewrite Z.shiftr_div_pow2 by lia.
    replace (2 ^ (8 * Z.of_nat (S n))) with (256 * 2 ^ (8 * Z.of_nat n)).
    + rewrite Z.rem_mul_r by (try apply Z.pow_pos_nonneg; lia).
      f_equal. f_equal. f_equal.
      replace (8 * Z.of_nat (S k)) with (8 * Z.of_nat k + 8) by lia.
      rewrite Z.pow_add_r by lia.
      rewrite <- Z.div_div by (try apply Z.pow_pos_nonneg; lia).
      reflexivity.
    + replace (8 * Z.of_nat (S n)) with (8 + 8 * Z.of_nat n) by lia.
      rewrite Z.pow_add_r by lia. reflexivity.
Qed.

(** Writing a value with [PutUint64] and reading the eight bytes back in
    the same order gives the value as a [uint64]. *)
Lemma PutUint64_roundtrip (order : ByteOrder) (v : Z) :
  uintOfBytes order (PutUint64 order v) = v mod 2 ^ 64.
Proof.
  unfold uintOfBytes, PutUint64.
  destruct order; rewrite ?rev_involutive;
    rewrite (littleEndian_value v 8 0); simpl Z.of_nat;
    rewrite Z.mul_0_r, Z.pow_0_r, Z.div_1_r; reflexivity.
Qed.

Lemma bytesOfString_injective (s t : string) :
  bytesOfString s = bytesOfString t -> s = t.
Proof.
  unfold bytesOfString. intro H.
  apply (f_equal (map ascii_of_byte)) in H.
  rewrite !map_map in H.
  rewrite (map_ext _ (fun a => a)) in H by apply ascii_of_byte_of_ascii.
  rewrite (map_ext (fun a => ascii_of_byte (byte_of_ascii a)) (fun a => a))
    in H by apply ascii_of_byte_of_ascii.
  rewrite !map_id in H.
  apply (f_equal string_of_list_ascii) in H.
  rewrite !string_of_list_ascii_of_string in H. exact H.
Qed.

(** X9.  The encoding under which [updateBloomFilter] enters a key into
    the filter tells keys of one kind apart: two [int64] keys with the same
    eight bytes are the same key, and so are two string keys with the same
    bytes. *)
Theorem pkBytes_injective (Endian : ByteOrder) :
  (forall a b,
      - 2 ^ 63 <= a < 2 ^ 63 -> - 2 ^ 63 <= b < 2 ^ 63 ->
      pkBytes Endian (int64PrimaryKey a) = pkBytes Endian (int64PrimaryKey b) ->
      a = b) /\
  (forall s t,
      pkBytes Endian (varCharPrimaryKey s) =
      pkBytes Endian (varCharPrimaryKey t) ->
      s = t).
Proof.
  split.
  - intros a b Ha Hb H. simpl in H. inversion H as [Hbytes].
    apply (f_equal (uintOfBytes Endian)) in Hbytes.
    rewrite !PutUint64_roundtrip in Hbytes. unfold wrapU64 in Hbytes.
    rewrite !Z.mod_mod in Hbytes by lia.
    pose proof (Z.div_mod a (2 ^ 64)) as Hda.
    pose proof (Z.div_mod b (2 ^ 64)) as Hdb.
    pose proof (Z.mod_pos_bound a (2 ^ 64)) as Hra.
    pose proof (Z.mod_pos_bound b (2 ^ 64)) as Hrb.
    lia.
  - intros s t H. simpl in H. inversion H as [Hbytes].
    apply bytesOfString_injective. exact Hbytes.
Qed.

(** ** Loading: the native descriptors are always released *)









(** X12.  The single-field load, of a descriptor that is not nil, is the
    multi-field load of one field: the given field ID with the binlogs of
    the given descriptor. *)
Theorem LoadFieldData_as_multi
    (engine : list CgoCall -> CgoCall -> CReply)
    (fieldID rowCount : Z) (field : FieldBinlog) (st : State) :
  LoadFieldData engine fieldID rowCount field st =
  LoadMultiFieldData engine rowCount
    [mkFieldBinlog fieldID (Binlogs field)] st.
Proof.
  unfold LoadFieldData, LoadMultiFieldData.
  destruct (negb (healthy (seg st))); [reflexivity|].
  unfold helper at 1 3. unfold submit at 1 3.
  destruct (helperError _); [reflexivity|].
  cbn [appendFields]. unfold appendField. cbn [FieldID Binlogs].
  destruct (helper engine _ _) as [reply1 st2].
  destruct (helperError reply1); [reflexivity|].
  destruct (appendPaths engine _ fieldID (Binlogs field) st2)
    as [[err|] st3]; reflexivity.
Qed.

(** X13.  [segmentLoadIndexData], given an index info that is not nil,
    always returns, and whichever way it returns, healthy segment or not,
    the index descriptor it created first is released last; the handle is
    used in between only on a sealed, healthy segment. *)
Theorem segmentLoadIndexData_releases_descriptor
    (engine : list CgoCall -> CgoCall -> CReply)
    (ii : FieldIndexInfo) (fieldType : DataType) (st : State) :
  let info := intValue (engine (cgoLog st) (OnHelper H_newLoadIndexInfo)) in
  let out := segmentLoadIndexData engine ii fieldType st in
  (exists r, fst out = Ret r) /\
  seg (snd out) = seg st /\
  exists mid,
    cgoLog (snd out) =
    cgoLog st ++ OnHelper H_newLoadIndexInfo :: mid
    ++ [OnHelper (H_deleteLoadIndexInfo info)] /\
    (handleUses mid <> [] ->
     getType (seg st) = segmentTypeSealed /\ healthy (seg st) = true).
Proof.
  intros info out. unfold out, segmentLoadIndexData, returnIndexInfo,
    helper, submit, logCgo. fold info. simpl.
  destruct (helperError (engine (cgoLog st) (OnHelper H_newLoadIndexInfo))).
  { simpl. split; [eexists; reflexivity|]. split; [reflexivity|].
    exists []. split; [rewrite <- app_assoc; reflexivity|].
    intro H; contradiction H; reflexivity. }
  destruct (helperError _).
  { simpl. split; [eexists; reflexivity|]. split; [reflexivity|].
    eexists [_; _]. split; [rewrite <- !app_assoc; reflexivity|].
    intro H; contradiction H; reflexivity. }
  destruct (SegmentState_eqb (getType (seg st)) segmentTypeSealed) eqn:Ht.
  2:{ simpl. split; [eexists; reflexivity|]. split; [reflexivity|].
      eexists [_]. split; [rewrite <- !app_assoc; reflexivity|].
      intro H; contradiction H; reflexivity. }
  destruct (healthy (seg st)) eqn:Hh; simpl.
  - split; [eexists; reflexivity|]. split; [reflexivity|].
    eexists [_; _]. split; [rewrite <- !app_assoc; reflexivity|].
    intros _. split; [|reflexivity].
    destruct (getType (seg st)); simpl in Ht; try discriminate. reflexivity.
  - split; [eexists; reflexivity|]. split; [reflexivity|].
    eexists [_]. split; [rewrite <- !app_assoc; reflexivity|].
    intro H; contradiction H; reflexivity.
Qed.

(** ** Hydration *)

Section Hydration.

Variable engine : list CgoCall -> CgoCall -> CReply.
Variable vcm : list VcmCall -> VcmCall -> error + list byte.
Variable unmarshalBoolArray : list byte -> error + list bool.
Variable unmarshalStringArray : list byte -> error + list string.
Variable Endian : ByteOrder.

Lemma fillFields_skips (offsets : list Z) (st : State)
    (fields : list FieldData) :
  forallb (fun fd =>
             negb (IsVectorType (fdType fd))
             || negb (hasLoadIndexForIndexedField (seg st) (FieldId fd)))
          fields = true ->
  fillFields engine vcm unmarshalBoolArray unmarshalStringArray Endian
    offsets fields st = (Ret None, (fields, st)).
Proof.
  induction fields as [|fd rest IH]; intro Hall; simpl; [reflexivity|].
  simpl in Hall. apply andb_true_iff in Hall. destruct Hall as (Hfd & Hrest).
  rewrite (IH Hrest).
  destruct (negb (IsVectorType (fdType fd))); [reflexivity|].
  simpl in Hfd. rewrite Hfd. reflexivity.
Qed.

(** X14.  When every field of a retrieve result is either not a vector or
    has no loaded index on the segment, [fillIndexedFieldsData] returns nil
    and leaves the result and the state as they are: nothing is read from
    the blob store and the engine is not asked anything. *)
Theorem fillIndexedFieldsData_skips (collectionID : UniqueID)
    (res : RetrieveResults) (st : State) :
  forallb (fun fd =>
             negb (IsVectorType (fdType fd))
             || negb (hasLoadIndexForIndexedField (seg st) (FieldId fd)))
          (FieldsData res) = true ->
  fillIndexedFieldsData engine vcm unmarshalBoolArray unmarshalStringArray
    Endian collectionID res st = (Ret None, (res, st)).
Proof.
  intro Hall. unfold fillIndexedFieldsData.
  rewrite (fillFields_skips (Offset res) st (FieldsData res) Hall).
  destruct res. reflexivity.
Qed.

(** X15.  A fill of a vector field makes exactly one read, of one row at
    the row's position: [dim/8] bytes at [offset * (dim/8)] for a binary
    vector, [dim*4] bytes at [offset * dim * 4] for a float vector (for
    dimensions and offsets small enough that the [int64] products do not
    wrap). *)
Theorem vector_fill_reads_one_row (dataPath : string) (fd : FieldData)
    (i : nat) (offset : Z) (st : State) :
  IsVectorType (fdType fd) = true ->
  0 <= GetDim fd < 2 ^ 31 ->
  0 <= offset < 2 ^ 30 ->
  vcmLog (snd (snd (fillFieldData vcm unmarshalBoolArray unmarshalStringArray
                      Endian dataPath fd i offset st))) =
  vcmLog st
  ++ [match fdType fd with
      | DataType_BinaryVector =>
          V_ReadAt dataPath (offset * (GetDim fd / 8)) (GetDim fd / 8)
      | _ => V_ReadAt dataPath (offset * (GetDim fd * 4)) (GetDim fd * 4)
      end].
Proof.
  intros Hvec Hdim Hoff.
  rewrite (fillFieldData_vector_read vcm unmarshalBoolArray
             unmarshalStringArray Endian dataPath fd i offset st Hvec).
  unfold logVcm, rowBytesOf. simpl vcmLog. f_equal. f_equal.
  destruct (fdType fd); try discriminate Hvec.
  - rewrite Z.quot_div_nonneg by lia.
    assert (0 <= GetDim fd / 8 < 2 ^ 31)
      by (split; [apply Z.div_pos; lia|apply Z.div_lt_upper_bound; lia]).
    rewrite wrapS64_small by nia. reflexivity.
  - rewrite (wrapS64_small (GetDim fd * 4)) by lia.
    rewrite wrapS64_small by nia. reflexivity.
Qed.

Lemma copyInto_row {A : Type} (dst src : list A) (i L : nat) :
  (S i * L <= List.length dst)%nat ->
  List.length src = L ->
  copyInto dst (Z.of_nat (i * L)) (Z.of_nat (S i * L)) src =
  Ret (firstn (i * L) dst ++ src ++ skipn (S i * L) dst).
Proof.
  intros Hfit Hlen. unfold copyInto.
  replace ((0 <=? Z.of_nat (i * L)) && (Z.of_nat (i * L) <=? Z.of_nat (S i * L))
           && (Z.of_nat (S i * L) <=? Z.of_nat (List.length dst))) with true.
  - rewrite Nat2Z.id.
    replace (Z.to_nat (Z.of_nat (S i * L) - Z.of_nat (i * L))) with L by lia.
    subst L. rewrite Nat.min_id, firstn_all.
    replace (i * List.length src + List.length src)%nat
      with (S i * List.length src)%nat by lia.
    reflexivity.
  - symmetry. rewrite !andb_true_iff. repeat split; apply Z.leb_le; lia.
Qed.

(** X16.  When the blob store returns a full row for a binary vector, the
    fill stores it as row [i] of the output array and touches no other
    row. *)
Theorem fillBinVec_writes_row (dataPath : string) (fieldID : UniqueID)
    (dim : Z) (x content : list byte) (i : nat) (offset : Z) (st : State) :
  let L := Z.to_nat (dim / 8) in
  0 <= dim < 2 ^ 31 ->
  0 <= offset < 2 ^ 30 ->
  (S i * L <= List.length x)%nat ->
  Z.of_nat (List.length x) < 2 ^ 63 ->
  vcm (vcmLog st) (V_ReadAt dataPath (offset * (dim / 8)) (dim / 8)) =
    inr content ->
  List.length content = L ->
  fillFieldData vcm unmarshalBoolArray unmarshalStringArray Endian dataPath
    (mkFieldData DataType_BinaryVector fieldID (BinaryVector dim x))
    i offset st =
  (Ret None,
   (mkFieldData DataType_BinaryVector fieldID
      (BinaryVector dim
         (firstn (i * L) x ++ content ++ skipn (S i * L) x)),
    logVcm (V_ReadAt dataPath (offset * (dim / 8)) (dim / 8)) st)).
Proof.
  intros L Hdim Hoff Hfit Hcap Hread Hlen.
  assert (Hq : 0 <= dim / 8 < 2 ^ 31)
    by (split; [apply Z.div_pos; lia|apply Z.div_lt_upper_bound; lia]).
  assert (HL : Z.of_nat L = dim / 8) by (unfold L; apply Z2Nat.id; lia).
  unfold fillFieldData, fillBinVecFieldData, vcmCall, GetDim.
  cbn [fdType Field].
  rewrite Z.quot_div_nonneg by lia.
  rewrite (wrapS64_small (offset * (dim / 8))) by nia.
  rewrite Hread. rewrite <- HL.
  replace (Z.of_nat i * Z.of_nat L) with (Z.of_nat (i * L)) by lia.
  replace ((Z.of_nat i + 1) * Z.of_nat L) with (Z.of_nat (S i * L)) by lia.
  rewrite !wrapS64_small by lia.
  rewrite (copyInto_row x content i L Hfit Hlen). reflexivity.
Qed.

End Hydration.

Lemma vector_fill_witness :
  vcmLog (snd (snd (fillFieldData emptyStore noBools noStrings LittleEndian
                      "files/insert_log/1"
                      (mkFieldData DataType_FloatVector 101
                         (FloatVector 128 []))
                      0 5 (stateOf (freshSegment Sealed))))) =
  [] ++ [V_ReadAt "files/insert_log/1" (5 * (128 * 4)) (128 * 4)].
Proof.
  apply (vector_fill_reads_one_row emptyStore noBools noStrings LittleEndian
           "files/insert_log/1"
           (mkFieldData DataType_FloatVector 101 (FloatVector 128 []))
           0 5 (stateOf (freshSegment Sealed)) eq_refl); cbn; lia.
Defined.

(** A store that returns the bytes 1, 2 for every read. *)
Definition twoByteStore : list VcmCall -> VcmCall -> error + list byte :=
  fun _ _ => inr [x01; x02].

Lemma fillBinVec_writes_row_witness :
  fillFieldData twoByteStore noBools noStrings LittleEndian
    "files/insert_log/1"
    (mkFieldData DataType_BinaryVector 101
       (BinaryVector 16 [x00; x00; x00; x00; x00; x00]))
    1 3 (stateOf (freshSegment Sealed)) =
  (Ret None,
   (mkFieldData DataType_BinaryVector 101
      (BinaryVector 16 [x00; x00; x01; x02; x00; x00]),
    logVcm (V_ReadAt "files/insert_log/1" 6 2)
      (stateOf (freshSegment Sealed)))).
Proof.
  apply (fillBinVec_writes_row twoByteStore noBools noStrings LittleEndian
           "files/insert_log/1" 101 16
           [x00; x00; x00; x00; x00; x00] [x01; x02] 1 3
           (stateOf (freshSegment Sealed))); cbn; try lia; reflexivity.
Defined.

Lemma fillIndexedFieldsData_skips_witness :
  fillIndexedFieldsData quietEngine emptyStore noBools noStrings LittleEndian
    1 (mkRetrieveResults [3] [binaryField]) (stateOf (freshSegment Sealed)) =
  (Ret None,
   (mkRetrieveResults [3] [binaryField], stateOf (freshSegment Sealed))).
Proof.
  exact (fillIndexedFieldsData_skips quietEngine emptyStore noBools noStrings
           LittleEndian 1 (mkRetrieveResults [3] [binaryField])
           (stateOf (freshSegment Sealed)) eq_refl).
Defined.

(** ** Raw data size *)

Definition totalLogSize (binlogs : list Binlog) : Z :=
  fold_right (fun b acc => LogSize b + acc) 0 binlogs.

Lemma sumLogSize_exact (binlogs : list Binlog) :
  Forall (fun b => 0 <= LogSize b) binlogs ->
  forall acc,
    0 <= acc -> acc + totalLogSize binlogs < 2 ^ 63 ->
    fold_left (fun acc binlog => wrapS64 (acc + LogSize binlog)) binlogs acc =
    acc + totalLogSize binlogs.
Proof.
  induction 1 as [|b binlogs Hb Hall IH]; intros acc Hacc Hsum; simpl in *.
  - lia.
  - assert (0 <= totalLogSize binlogs).
    { clear -Hall. induction Hall; simpl; lia. }
    rewrite wrapS64_small by lia. rewrite IH by lia. lia.
Qed.

(** X17.  [UpdateFieldRawDataSize] reports to the engine the sum of the
    log sizes of the field's binlogs (sizes non-negative, sum within
    [int64]), in one call on the handle, and returns what the status of
    that call amounts to. *)
Theorem UpdateFieldRawDataSize_sum
    (engine : list CgoCall -> CgoCall -> CReply)
    (numRows : Z) (fb : FieldBinlog) (st : State) :
  Forall (fun b => 0 <= LogSize b) (Binlogs fb) ->
  totalLogSize (Binlogs fb) < 2 ^ 63 ->
  let call :=
    OnSegment (segmentPtr (seg st))
      (C_UpdateFieldRawDataSize (FieldID fb) numRows
         (totalLogSize (Binlogs fb))) in
  UpdateFieldRawDataSize engine numRows fb st =
  (Ret (HandleCStatus (status (engine (cgoLog st) call))
          "updateFieldRawDataSize failed"),
   mkState (seg st) (cgoLog st ++ [call]) (vcmLog st)).
Proof.
  intros Hnn Hsum call. unfold UpdateFieldRawDataSize, submit, logCgo.
  rewrite (sumLogSize_exact (Binlogs fb) Hnn 0) by lia.
  reflexivity.
Qed.

Lemma UpdateFieldRawDataSize_sum_witness :
  UpdateFieldRawDataSize quietEngine 15 sampleFieldBinlog
    (stateOf (freshSegment Sealed)) =
  (Ret None,
   mkState (freshSegment Sealed)
     [OnSegment (Some 4096) (C_UpdateFieldRawDataSize 101 15 120)] []).
Proof.
  apply (UpdateFieldRawDataSize_sum quietEngine 15 sampleFieldBinlog
           (stateOf (freshSegment Sealed))).
  - cbn. repeat constructor; cbn; lia.
  - cbn. lia.
Defined.

(** ** What no operation changes *)


Section Identity.

Variable sortSort : list DeleteRecord -> list DeleteRecord.
Variable engine : list CgoCall -> CgoCall -> CReply.
Variable vcm : list VcmCall -> VcmCall -> error + list byte.
Variable protoMarshalIDs : IDs -> error + list byte.
Variable protoMarshalInsertRecord : Z -> error + list byte.
Variable unmarshalBoolArray : list byte -> error + list bool.
Variable unmarshalStringArray : list byte -> error + list string.
Variable HandleCProto : list byte -> error + RetrieveResults.
Variable sortByPK : RetrieveResults -> RetrieveResults.
Variable location : list byte -> nat -> nat.
Variables BloomFilterM BloomFilterK : nat.
Variable Endian : ByteOrder.
Variable MaxOutputSize : Z.





Local Abbreviation after :=
  (stateAfter sortSort engine vcm protoMarshalIDs protoMarshalInsertRecord
     unmarshalBoolArray unmarshalStringArray HandleCProto sortByPK location
     BloomFilterM BloomFilterK Endian MaxOutputSize).



End Identity.

(** ** Creation *)

(** [newSegment]: the native constructor is asked for a sealed or a growing
    segment and its handle kept; any other type is an error and nothing is
    built.  The members not listed in the composite literal have their zero
    values. *)
Definition newSegment
    (cNewSegment : SegmentState -> UniqueID -> CSegmentInterface)
    (segmentID partitionID collectionID : UniqueID) (vChannelID : Channel)
    (segType : SegmentState) (version : UniqueID) : error + Segment :=
  match segType with
  | Sealed | Growing =>
      inr (mkSegment (cNewSegment segType segmentID) segmentID partitionID
             collectionID version vChannelID 0 0 (mkDeleteRecords [] false) 0
             false segType false (Some false) [] None [])
  | _ => inl (ErrText "illegal segment type when create segment")
  end.

Section Entry.

Variable sortSort : list DeleteRecord -> list DeleteRecord.
Variable engine : list CgoCall -> CgoCall -> CReply.
Variable vcm : list VcmCall -> VcmCall -> error + list byte.
Variable protoMarshalIDs : IDs -> error + list byte.
Variable protoMarshalInsertRecord : Z -> error + list byte.
Variable unmarshalBoolArray : list byte -> error + list bool.
Variable unmarshalStringArray : list byte -> error + list string.
Variable HandleCProto : list byte -> error + RetrieveResults.
Variable sortByPK : RetrieveResults -> RetrieveResults.
Variable location : list byte -> nat -> nat.
Variable Endian : ByteOrder.
Variable MaxOutputSize : Z.

(** X19.  [newSegment] builds a segment only for the growing and the
    sealed type.  The segment it builds is healthy, of the type asked for,
    answers [isPKExist] false for every key, and buffers its first
    well-formed delete without a native call. *)
Theorem newSegment_fresh
    (cNewSegment : SegmentState -> UniqueID -> CSegmentInterface)
    (segmentID partitionID collectionID : UniqueID) (vChannelID : Channel)
    (segType : SegmentState) (version : UniqueID) :
  match newSegment cNewSegment segmentID partitionID collectionID vChannelID
          segType version with
  | inl _ => segType <> segmentTypeGrowing /\ segType <> segmentTypeSealed
  | inr s =>
      (segType = segmentTypeGrowing \/ segType = segmentTypeSealed) /\
      healthy s = true /\ getType s = segType /\
      segmentPtr s = cNewSegment segType segmentID /\
      (forall k, isPKExist location Endian s k = false) /\
      (forall pks tss st,
          seg st = s -> pks <> [] -> List.length pks = List.length tss ->
          fst (segmentDelete engine protoMarshalIDs pks tss st) = Ret None /\
          cgoLog (snd (segmentDelete engine protoMarshalIDs pks tss st)) =
            cgoLog st /\
          records (deleteBuffer
                     (seg (snd (segmentDelete engine protoMarshalIDs pks tss
                                  st)))) = zipRecords pks tss)
  end.
Proof.
  destruct segType; simpl; try (split; discriminate).
  - split; [left; reflexivity|]. repeat split.
    all: destruct pks as [|k pks]; [congruence|];
      unfold segmentDelete; simpl Nat.leb; cbv iota;
      rewrite H1, Nat.eqb_refl; simpl negb; cbv iota;
      rewrite H; simpl deleteBuffer;
      rewrite (TryAppend_unflushed (mkDeleteRecords [] false) _ _ eq_refl H1);
      reflexivity.
  - split; [right; reflexivity|]. repeat split.
    all: destruct pks as [|k pks]; [congruence|];
      unfold segmentDelete; simpl Nat.leb; cbv iota;
      rewrite H1, Nat.eqb_refl; simpl negb; cbv iota;
      rewrite H; simpl deleteBuffer;
      rewrite (TryAppend_unflushed (mkDeleteRecords [] false) _ _ eq_refl H1);
      reflexivity.
Qed.

(** X20.  [segmentInsert] marks the segment recently modified exactly when
    it returns nil, and then it has made one native insert, on the handle,
    for as many rows as there are entity IDs; whenever it returns an error
    or panics the segment is as it was. *)
Theorem segmentInsert_marks_modified (offset : Z) (entityIDs : list UniqueID)
    (timestamps : list Timestamp) (record : Z) (st : State) :
  let out := segmentInsert engine protoMarshalInsertRecord offset entityIDs
               timestamps record st in
  (fst out = Ret None ->
   seg (snd out) = setRecentlyModified true (seg st) /\
   exists blob,
     cgoLog (snd out) =
     cgoLog st
     ++ [OnSegment (segmentPtr (seg st))
           (C_Insert offset (Z.of_nat (List.length entityIDs)) entityIDs
              timestamps blob)]) /\
  (fst out <> Ret None -> seg (snd out) = seg st).
Proof.
  unfold segmentInsert, submit, logCgo. simpl.
  destruct (negb (SegmentState_eqb _ _));
    [split; [discriminate|reflexivity]|].
  destruct (negb (healthy (seg st))); [split; [discriminate|reflexivity]|].
  destruct (protoMarshalInsertRecord record) as [e|blob];
    [split; [discriminate|reflexivity]|].
  destruct entityIDs as [|id ids], timestamps as [|t ts], blob as [|b blob];
    try (split; [discriminate|reflexivity]).
  destruct (HandleCStatus _ _) as [err|];
    [split; [discriminate|reflexivity]|].
  split; [|intro H; contradiction H; reflexivity].
  intros _. split; [reflexivity|]. eexists. reflexivity.
Qed.


(** X22.  Once the buffer has been flushed, [segmentLoadDeletedRecord] on a
    healthy segment hands the whole batch of integer keys to the engine in
    one native call: unlike [deleteImpl] it does not consult the watermark
    and drops nothing. *)
Theorem segmentLoadDeletedRecord_loads_all (vs : list Z)
    (tss : list Timestamp) (rowCount : Z) (blob : list byte) (st : State) :
  flushed (deleteBuffer (seg st)) = true ->
  healthy (seg st) = true ->
  vs <> [] -> tss <> [] ->
  protoMarshalIDs (IDs_IntId vs) = inr blob -> blob <> [] ->
  let call :=
    OnSegment (segmentPtr (seg st)) (C_LoadDeletedRecord tss blob rowCount) in
  segmentLoadDeletedRecord engine protoMarshalIDs (map int64PrimaryKey vs)
    tss rowCount st =
  (Ret (HandleCStatus (status (engine (cgoLog st) call))
          "LoadDeletedRecord failed"),
   mkState (seg st) (cgoLog st ++ [call]) (vcmLog st)).
Proof.
  intros Hf Hh Hvs Htss Hblob Hbne call.
  unfold segmentLoadDeletedRecord.
  rewrite (TryAppend_flushed _ _ _ Hf), setDeleteBuffer_same, Hh.
  simpl negb. cbv iota.
  destruct vs as [|v vs]; [congruence|].
  assert (Hkeys : keySet (map int64PrimaryKey (v :: vs)) =
                  Ret (inr (IDs_IntId (v :: vs)))).
  { unfold keySet. cbn [map pkType].
    rewrite (proj2 (int64Values_iff (int64PrimaryKey v :: map int64PrimaryKey vs)
                      (v :: vs)) eq_refl). reflexivity. }
  cbn [map List.length Nat.leb]. cbn [map] in Hkeys. rewrite Hkeys, Hblob.
  destruct tss as [|t tss]; [congruence|].
  destruct blob as [|b blob]; [congruence|]. reflexivity.
Qed.

(** X23.  A failed fetch ends the hydration of a field at once: when the
    blob store answers the read for the first row offset with an error,
    [fillRows] returns that error, the field data are as they were, and the
    later offsets are not read. *)
Theorem fillRows_stops_at_failure (info : IndexedFieldInfo) (i : nat)
    (offset : Z) (more : list Z) (fd : FieldData) (st : State)
    (dataPath : string) (offsetInBinlog : Z) (err : error) :
  IsVectorType (fdType fd) = true ->
  getFieldDataPath info offset = Ret (dataPath, offsetInBinlog) ->
  vcm (vcmLog st)
    (V_ReadAt dataPath (wrapS64 (offsetInBinlog * rowBytesOf fd))
       (rowBytesOf fd)) = inl err ->
  fillRows vcm unmarshalBoolArray unmarshalStringArray Endian info i
    (offset :: more) fd st =
  (Ret (Some err),
   (fd, logVcm (V_ReadAt dataPath (wrapS64 (offsetInBinlog * rowBytesOf fd))
                  (rowBytesOf fd)) st)).
Proof.
  intros Hvec Hpath Hfail. cbn [fillRows]. rewrite Hpath.
  unfold fillFieldData, rowBytesOf in *.
  destruct (fdType fd); try discriminate Hvec.
  - unfold fillBinVecFieldData, vcmCall. rewrite Hfail. reflexivity.
  - unfold fillFloatVecFieldData, vcmCall. rewrite Hfail. reflexivity.
Qed.

(** X24.  When [FlushDelete] returns an error the watermark has not moved
    and the buffer still holds every record, unflushed, so the flush can
    be tried again. *)
Theorem FlushDelete_failure_keeps_records (st st' : State) (err : error) :
  SortContract sortSort ->
  FlushDelete sortSort engine protoMarshalIDs st = (Ret (Some err), st') ->
  flushedDeletedTimestamp (seg st') = flushedDeletedTimestamp (seg st) /\
  flushed (deleteBuffer (seg st')) = flushed (deleteBuffer (seg st)) /\
  Permutation (records (deleteBuffer (seg st)))
    (records (deleteBuffer (seg st'))).
Proof.
  intros Hsort Hrun.
  destruct (Hsort (records (deleteBuffer (seg st)))) as (Hperm & _).
  unfold FlushDelete, Flush, flushHandler in Hrun.
  destruct (List.length _ =? 0)%nat; [discriminate|].
  match type of Hrun with context [deleteImpl engine protoMarshalIDs ?p ?t st] =>
    pose proof (proj1 (deleteImpl_seg engine protoMarshalIDs p t st)) as Hseg;
    destruct (deleteImpl engine protoMarshalIDs p t st) as [[[e|]|m] st1]
  end; simpl in Hseg.
  - inversion Hrun; subst. simpl. rewrite Hseg. simpl.
    repeat split. exact Hperm.
  - destruct (nth_error _ _); discriminate.
  - discriminate.
Qed.

End Entry.


Lemma segmentLoadDeletedRecord_loads_all_witness :
  segmentLoadDeletedRecord quietEngine tagMarshal [key 1; key 2] [3; 4] 2
    (stateOf (flushedAt 10)) =
  (Ret None,
   mkState (flushedAt 10)
     [OnSegment (Some 4096)
        (C_LoadDeletedRecord [3; 4] (x0a :: map byteOfZ [1; 2]) 2)] []).
Proof.
  apply (segmentLoadDeletedRecord_loads_all quietEngine tagMarshal [1; 2]
           [3; 4] 2 (x0a :: map byteOfZ [1; 2]) (stateOf (flushedAt 10)));
    try reflexivity; discriminate.
Defined.

(** A blob store that fails every read. *)
Definition failingStore : list VcmCall -> VcmCall -> error + list byte :=
  fun _ _ => inl (ErrText "read failed").

Lemma fillRows_stops_at_failure_witness :
  fillRows failingStore noBools noStrings LittleEndian
    (mkIndexedFieldInfo (Some sampleFieldBinlog) (Some sampleIndexInfo)) 0
    [3; 12] binaryField (stateOf indexedSegment) =
  (Ret (Some (ErrText "read failed")),
   (binaryField,
    mkState indexedSegment [] [V_ReadAt "files/insert_log/1" 6 2])).
Proof.
  exact (fillRows_stops_at_failure failingStore noBools noStrings LittleEndian
           (mkIndexedFieldInfo (Some sampleFieldBinlog) (Some sampleIndexInfo))
           0 3 [12] binaryField (stateOf indexedSegment) "files/insert_log/1"
           3 (ErrText "read failed") eq_refl eq_refl eq_refl).
Defined.

Lemma FlushDelete_failure_witness :
  fst (FlushDelete stableSort quietEngine tagMarshal
         (withSeg setUnhealthy bufferedState)) =
    Ret (Some (ErrSegmentUnhealthy 7)) /\
  flushedDeletedTimestamp
    (seg (snd (FlushDelete stableSort quietEngine tagMarshal
                 (withSeg setUnhealthy bufferedState)))) = 0 /\
  flushed (deleteBuffer
             (seg (snd (FlushDelete stableSort quietEngine tagMarshal
                          (withSeg setUnhealthy bufferedState))))) = false.
Proof.
  split; [reflexivity|].
  destruct (FlushDelete_failure_keeps_records stableSort quietEngine
              tagMarshal (withSeg setUnhealthy bufferedState)
              (snd (FlushDelete stableSort quietEngine tagMarshal
                      (withSeg setUnhealthy bufferedState)))
              (ErrSegmentUnhealthy 7) stableSort_contract eq_refl)
    as (Hw & Hf & _).
  split; [exact Hw|exact Hf].
Defined.
